(** * medium-api: the lazy entity handles and the range paginator

    A shallow embedding of [medium_api/_publication.py] (classes
    [Newsletter] and [Publication]) and [medium_api/_topfeeds.py] (class
    [TopFeeds]), and the properties of their caching and paging behaviour.

    Python objects are records; the state a method reads and writes is
    passed explicitly: the attributes of [self], and a [World] holding what
    lives outside of [self] (the log of requests, the clock, the console,
    the [Article] objects, the calls received by the bulk-fetch
    collaborator and the table of the memoizing decorator).  A method is
    a function from the state to an outcome and the next state; an outcome
    is a returned value, a raised exception, or the exhaustion of the fuel
    given to the one [while] loop of the code. *)

From Stdlib Require Import ZArith List String Ascii Bool Lia.
From stdpp Require Import base option list gmap strings.

Open Scope string_scope.
Open Scope list_scope.

(** ** [datetime.datetime], naive *)

(** The fields of a naive [datetime].  Python keeps every field within its
    range (year 1..9999, month 1..12, ...); nothing below depends on it. *)
Record datetime := mk_datetime {
  year : Z; month : Z; day : Z;
  hour : Z; minute : Z; second : Z; microsecond : Z
}.

#[global] Instance datetime_eq_dec : EqDecision datetime.
Proof. solve_decision. Defined.

(** Comparison of tuples of integers, as Python compares tuples: the first
    position where they differ decides, then the lengths. *)
Fixpoint tuple_cmp (a b : list Z) : comparison :=
  match a, b with
  | [], [] => Eq
  | [], _ :: _ => Lt
  | _ :: _, [] => Gt
  | x :: a', y :: b' =>
      match (x ?= y)%Z with
      | Eq => tuple_cmp a' b'
      | c => c
      end
  end.

Definition dt_tuple (d : datetime) : list Z :=
  [year d; month d; day d; hour d; minute d; second d; microsecond d].

(** [datetime._cmp] for two naive values: the comparison of the field
    tuples. *)
Definition _cmp (a b : datetime) : comparison :=
  tuple_cmp (dt_tuple a) (dt_tuple b).

(** [a < b], [a <= b], [a > b], [a >= b] *)
Definition dt_lt (a b : datetime) : bool :=
  match _cmp a b with Lt => true | _ => false end.
Definition dt_le (a b : datetime) : bool :=
  match _cmp a b with Gt => false | _ => true end.
Definition dt_gt (a b : datetime) : bool :=
  match _cmp a b with Gt => true | _ => false end.
Definition dt_ge (a b : datetime) : bool :=
  match _cmp a b with Lt => false | _ => true end.

(** The decimal digits of [n], on [w] positions ([%0wd] for a field within
    its range). *)
Definition digit (n : Z) : ascii := ascii_of_nat (48 + Z.to_nat (n mod 10)).

Fixpoint digits (w : nat) (n : Z) : string :=
  match w with
  | O => EmptyString
  | S w' => digits w' (n / 10) ++ String (digit n) EmptyString
  end.

(** [datetime.isoformat()] with the default separator and timespec:
    [YYYY-MM-DDTHH:MM:SS], followed by [.ffffff] when the microsecond is
    not zero. *)
Definition isoformat (d : datetime) : string :=
  digits 4 (year d) ++ "-" ++ digits 2 (month d) ++ "-" ++ digits 2 (day d)
  ++ "T" ++ digits 2 (hour d) ++ ":" ++ digits 2 (minute d) ++ ":"
  ++ digits 2 (second d)
  ++ (if (microsecond d =? 0)%Z then EmptyString else "." ++ digits 6 (microsecond d)).

(** the double quote, as a string *)
Definition dquote : string := String (ascii_of_nat 34) EmptyString.

(** ** Parsed JSON *)

#[local] Set Warnings "-register-all".
Inductive json :=
| JNull
| JBool (b : bool)
| JInt (n : Z)
| JStr (s : string)
| JList (l : list json)
| JDict (d : list (string * json)).

(** A response body: a JSON object, used by the code as a [dict]. *)
Abbreviation resp := (gmap string json).

(** ** Outcomes and the state monad *)

Inductive exn :=
| KeyError (key : string)
| TypeError
| ValueError
| ServiceError (msg : string).

Inductive outcome (A : Type) :=
| Ok (a : A)
| Raise (e : exn)
| OutOfFuel.
Arguments Ok {A} a.
Arguments Raise {A} e.
Arguments OutOfFuel {A}.

Definition M (S A : Type) : Type := S -> outcome A * S.

Definition ret {S A} (a : A) : M S A := fun s => (Ok a, s).

Definition bind {S A B} (m : M S A) (k : A -> M S B) : M S B :=
  fun s =>
    match m s with
    | (Ok a, s') => k a s'
    | (Raise e, s') => (Raise e, s')
    | (OutOfFuel, s') => (OutOfFuel, s')
    end.

Definition raise {S A} (e : exn) : M S A := fun s => (Raise e, s).

Notation "'let*' x := m 'in' k" := (bind m (fun x => k))
  (at level 10, x name, m at level 100, k at level 200, only parsing).
Notation "m ;; k" := (bind m (fun _ => k))
  (at level 100, k at level 200, right associativity, only parsing).

(** An operation on the world, run by a method of an object: the state of
    a method is the pair of [self] and the world. *)
Definition lift {S W A} (m : M W A) : M (S * W) A :=
  fun st => let r := m (snd st) in (fst r, (fst st, snd r)).

Definition get_self {S W} : M (S * W) S := fun st => (Ok (fst st), st).

Definition setattr {S W} (f : S -> S) : M (S * W) unit :=
  fun st => (Ok tt, (f (fst st), snd st)).

(** [d[k]] on a dict *)
Definition getitem {S} (d : resp) (k : string) : M S json :=
  match d !! k with
  | Some v => ret v
  | None => raise (KeyError k)
  end.

(** The characters of a string, each one a string of its own: what the
    iteration over a [str] yields.  A string is the sequence of its
    characters. *)
Definition chars (s : string) : list json :=
  map (fun c => JStr (String c EmptyString)) (list_ascii_of_string s).

(** The keys of a parsed JSON object, as the [dict] holds them: each one
    once, in the order of its first occurrence. *)
Fixpoint keys (d : list (string * json)) : list string :=
  match d with
  | [] => []
  | (k, _) :: d' => k :: List.filter (fun k' => negb (String.eqb k' k)) (keys d')
  end.

(** What a value holds as a sequence, where the code slices it: the
    elements of a list, the characters of a string.  No other parsed value
    is a sequence. *)
Definition sequence (j : json) : option (list json) :=
  match j with
  | JList l => Some l
  | JStr s => Some (chars s)
  | _ => None
  end.

(** What the iteration over a value yields, where the code iterates over
    it or copies it with [list(...)]: the elements of a list, the
    characters of a string, the keys of a dict.  [None], a boolean and a
    number are not iterable. *)
Definition items (j : json) : option (list json) :=
  match j with
  | JList l => Some l
  | JStr s => Some (chars s)
  | JDict d => Some (JStr <$> keys d)
  | _ => None
  end.

(** The elements of [j[::-1]], read back in the order of [j]: the
    callers reverse them.  The slice of a list is a list and the slice of
    a string is a string, of which the iteration yields the characters;
    the slice of any other parsed value raises ([TypeError]; on a dict,
    [KeyError] from Python 3.12 on, where a slice is hashable). *)
Definition elements_of {S} (j : json) : M S (list json) :=
  match sequence j with
  | Some l => ret l
  | None => raise TypeError
  end.

(** [for i in j], [list(j)] *)
Definition iterate {S} (j : json) : M S (list json) :=
  match items j with
  | Some l => ret l
  | None => raise TypeError
  end.

(** ** The world outside of [self] *)

(** Modelled from the spec: the class [Article] of [medium_api._article],
    which is not part of the sources at hand.  A handle keeps the identifier
    it was built from; its derived fields are unset until the handle is
    hydrated, and [published_at] is the one the code reads. *)
Record Article := mk_Article {
  article_id : json;
  published_at : option datetime
}.

(** The keyword arguments [TopFeeds.fetch_articles] hands to the
    collaborator. *)
Record fetch_kwargs := mk_kwargs {
  max_len : option Z;
  content : bool;
  markdown : bool
}.

(** The arguments of a call of [Publication.get_articles_between], as the
    caller spells them: the positional ones that follow [self], and the
    keyword ones, in the order of the call.  An argument is a [datetime] or
    [None]. *)
Record call := mk_call {
  args : list (option datetime);
  kwds : list (string * option datetime)
}.

(** The key of an entry of [functools.lru_cache] around
    [Publication.get_articles_between], as [functools._make_key] builds it
    from the call: the positional arguments, [self] first (a [Publication]
    hashes and compares by identity), followed, when there are keyword
    arguments, by a mark and the keyword arguments in the order of the call.
    The key is made of the arguments as they are spelled, not of the values
    the parameters end up bound to: a call without arguments and a call with
    [None] twice, or a positional and a keyword spelling of the same values,
    have different keys. *)
Definition lru_key : Type :=
  nat * list (option datetime) * list (string * option datetime).

Definition make_key (self : nat) (c : call) : lru_key := (self, args c, kwds c).

(** The binding of the arguments of a call to the parameters
    [_from=None, _to=None]: the positional arguments fill the parameters in
    order, a keyword argument fills the parameter of its name, a parameter
    left out takes its default.  A third positional argument, a keyword that
    names no parameter (or names [self]) and a parameter given twice raise
    [TypeError].  A parameter is [None] while it is not filled. *)
Fixpoint bind_kwds (kw : list (string * option datetime))
    (slots : option (option datetime) * option (option datetime))
  : option (option (option datetime) * option (option datetime)) :=
  match kw with
  | [] => Some slots
  | (name, v) :: kw' =>
      if String.eqb name "_from" then
        match fst slots with
        | None => bind_kwds kw' (Some v, snd slots)
        | Some _ => None
        end
      else if String.eqb name "_to" then
        match snd slots with
        | None => bind_kwds kw' (fst slots, Some v)
        | Some _ => None
        end
      else None
  end.

Definition bind_args (c : call) : exn + (option datetime * option datetime) :=
  let positional :=
    match args c with
    | [] => Some (None, None)
    | [a] => Some (Some a, None)
    | [a; b] => Some (Some a, Some b)
    | _ => None
    end in
  match positional with
  | Some slots =>
      match bind_kwds (kwds c) slots with
      | Some (f, t) => inr (default None f, default None t)
      | None => inl TypeError
      end
  | None => inl TypeError
  end.

Record World := mk_World {
  requests : list string;      (* the paths [get_resp] was called with, oldest first *)
  clock_reads : nat;           (* how many times [datetime.now()] was read *)
  stdout : list string;        (* the lines printed *)
  heap : nat -> Article;       (* the [Article] objects, by reference *)
  next_obj : nat;              (* the next free reference *)
  delegated : list (list nat * option fetch_kwargs);
                               (* the calls the bulk-fetch collaborator received *)
  lru : list (lru_key * list nat)
                               (* the decorator's table, most recently used first *)
}.

(** The collaborators injected into every entity, and the library calls
    whose result the code does not determine.
    - [service h p]: what [get_resp(p)] yields after the requests [h]: a
      parsed body (the metadata returned with it is dropped by every
      caller) or the error it raises;
    - [clock n]: the value of the [n]-th reading of [datetime.now()];
    - [strptime s]: [datetime.strptime(s, '%Y-%m-%d %H:%M:%S')], [None] for
      the [ValueError] of a string that does not match;
    - [bulk_fetch l kw h]: the effect of [fetch_articles(l, **kw)] on the
      [Article] objects, and the error it raises, if any; the requests the
      collaborator makes of its own are not in the log of the world, which
      holds the calls of [get_resp] by the methods modelled here.
    [fetch_users] is stored by the constructors and never called by the
    methods modelled here. *)
Record Env := mk_Env {
  service : list string -> string -> exn + resp;
  clock : nat -> datetime;
  strptime : string -> option datetime;
  bulk_fetch : list nat -> option fetch_kwargs -> (nat -> Article) ->
               option exn * (nat -> Article)
}.

Definition log_request (path : string) (w : World) : World :=
  mk_World (requests w ++ [path]) (clock_reads w) (stdout w)
           (heap w) (next_obj w) (delegated w) (lru w).

Definition tick (w : World) : World :=
  mk_World (requests w) (S (clock_reads w)) (stdout w)
           (heap w) (next_obj w) (delegated w) (lru w).

Definition log_line (line : string) (w : World) : World :=
  mk_World (requests w) (clock_reads w) (stdout w ++ [line])
           (heap w) (next_obj w) (delegated w) (lru w).

Section World_operations.
Context (E : Env).

(** [get_resp(path)]: one request *)
Definition get_resp (path : string) : M World resp :=
  fun w =>
    match service E (requests w) path with
    | inr r => (Ok r, log_request path w)
    | inl e => (Raise e, log_request path w)
    end.

(** [datetime.now()] *)
Definition now : M World datetime :=
  fun w => (Ok (clock E (clock_reads w)), tick w).

(** [print(line)] *)
Definition print (line : string) : M World unit :=
  fun w => (Ok tt, log_line line w).

(** [Article(article_id=..., get_resp=..., fetch_articles=...,
    fetch_users=...)]: a new, unhydrated handle *)
Definition new_Article (id : json) : M World nat :=
  fun w =>
    let r := next_obj w in
    (Ok r,
     mk_World (requests w) (clock_reads w) (stdout w)
              (fun n => if Nat.eqb n r then mk_Article id None else heap w n)
              (S r) (delegated w) (lru w)).

(** [[Article(article_id=i, ...) for i in ids]] *)
Fixpoint new_Articles (ids : list json) : M World (list nat) :=
  match ids with
  | [] => ret []
  | i :: ids' =>
      let* a := new_Article i in
      let* l := new_Articles ids' in
      ret (a :: l)
  end.

(** [fetch_articles(articles, **kw)], the injected collaborator *)
Definition fetch_articles (articles : list nat) (kw : option fetch_kwargs)
  : M World unit :=
  fun w =>
    let r := bulk_fetch E articles kw (heap w) in
    let w' := mk_World (requests w) (clock_reads w) (stdout w)
                       (snd r) (next_obj w)
                       (delegated w ++ [(articles, kw)]) (lru w) in
    match fst r with
    | None => (Ok tt, w')
    | Some e => (Raise e, w')
    end.

(** [datetime.strptime(j, '%Y-%m-%d %H:%M:%S')] *)
Definition parse_to {S} (j : json) : M S datetime :=
  match j with
  | JStr s =>
      match strptime E s with
      | Some d => ret d
      | None => raise ValueError
      end
  | _ => raise TypeError
  end.

(** [[a for a in articles if (_to <= a.published_at <= _from)]]: the
    comparison of a [datetime] with an unset [published_at] raises
    [TypeError]. *)
Fixpoint select_between (_to _from : datetime) (articles : list nat)
  : M World (list nat) :=
  match articles with
  | [] => ret []
  | a :: rest =>
      fun w =>
        match published_at (heap w a) with
        | None => (Raise TypeError, w)
        | Some p =>
            (let* l := select_between _to _from rest in
             ret (if dt_le _to p && dt_le p _from then a :: l else l)) w
        end
  end.
End World_operations.

(** ** [functools.lru_cache(maxsize=16)] *)

Definition maxsize : nat := 16.

Definition lru_get (k : lru_key) (c : list (lru_key * list nat))
  : option (list nat) :=
  snd <$> List.find (fun e => bool_decide (fst e = k)) c.

(** a hit moves the entry to the most recently used end *)
Definition lru_hit (k : lru_key) (v : list nat) (c : list (lru_key * list nat))
  : list (lru_key * list nat) :=
  (k, v) :: List.filter (fun e => negb (bool_decide (fst e = k))) c.

(** a miss stores the result, in the place of the least recently used entry
    once the table is full *)
Definition lru_miss (k : lru_key) (v : list nat) (c : list (lru_key * list nat))
  : list (lru_key * list nat) :=
  (k, v) :: (if (length c <? maxsize)%nat then c else removelast c).

Definition set_lru (f : list (lru_key * list nat) -> list (lru_key * list nat))
  (w : World) : World :=
  mk_World (requests w) (clock_reads w) (stdout w) (heap w) (next_obj w)
           (delegated w) (f (lru w)).

(** ** class [Newsletter] *)

Module Newsletter.
Record t := mk {
  publication_id : string;
  _Newsletter__info : option resp
}.

(** [__init__] with [save_info=False] *)
Definition __init__ (publication_id : string) : t := mk publication_id None.

Definition set_info (d : option resp) (s : t) : t := mk (publication_id s) d.

Section methods.
Context (E : Env).

Definition path (self : t) : string :=
  "/publication/" ++ publication_id self ++ "/newsletter".

(** the property [info] *)
Definition info : M (t * World) resp :=
  let* me := get_self in
  match _Newsletter__info me with
  | None =>
      let* resp := lift (get_resp E (path me)) in
      setattr (set_info (Some resp)) ;;
      ret resp
  | Some d => ret d
  end.

(** [n] readings of [info], one after the other *)
Fixpoint read_info (n : nat) : M (t * World) (list resp) :=
  match n with
  | O => ret []
  | S n' =>
      let* d := info in
      let* l := read_info n' in
      ret (d :: l)
  end.
End methods.
End Newsletter.

(** ** class [Publication] *)

Module Publication.
(** [ident] is the identity of the object.  The thirteen attributes that
    [__init__] sets to [None] and only [save_info] fills ([name],
    [description], ...) are left out, as is [save_info], which no method
    below calls. *)
Record t := mk {
  ident : nat;
  publication_id : string;
  newsletter : Newsletter.t;
  _Publication__info : option resp;
  _Publication__articles : option (list nat)
}.

(** [__init__] with [save_info=False] *)
Definition __init__ (ident : nat) (publication_id : string) : t :=
  mk ident publication_id (Newsletter.__init__ publication_id) None None.

Definition _id (self : t) : string := publication_id self.

(** the line printed for an interval that is not one: the words from
    and to stand between double quotes *)
Definition error_line : string :=
  "[ERROR]: " ++ dquote ++ "from" ++ dquote ++ " date should be greater than "
  ++ dquote ++ "to" ++ dquote ++ " date. Try swapping both.".

Definition set_info (d : option resp) (s : t) : t :=
  mk (ident s) (publication_id s) (newsletter s) d (_Publication__articles s).

Definition set_articles (a : option (list nat)) (s : t) : t :=
  mk (ident s) (publication_id s) (newsletter s) (_Publication__info s) a.

Section methods.
Context (E : Env).

Definition info_path (self : t) : string := "/publication/" ++ _id self.

Definition articles_path (self : t) (_from : datetime) : string :=
  "/publication/" ++ _id self ++ "/articles?from=" ++ isoformat _from.

(** the property [info] *)
Definition info : M (t * World) resp :=
  let* me := get_self in
  match _Publication__info me with
  | None =>
      let* resp := lift (get_resp E (info_path me)) in
      setattr (set_info (Some resp)) ;;
      ret resp
  | Some d => ret d
  end.

Fixpoint read_info (n : nat) : M (t * World) (list resp) :=
  match n with
  | O => ret []
  | S n' =>
      let* d := info in
      let* l := read_info n' in
      ret (d :: l)
  end.

Definition articles_from_ids (article_ids : list json) : M World (list nat) :=
  new_Articles article_ids.

(** One page: the request at a cursor, the handles of its identifiers,
    reversed, and the bound it reports (lines 259-261 and 264-266). *)
Definition page (me : t) (cursor : datetime) : M World (list nat * datetime) :=
  let* resp := get_resp E (articles_path me cursor) in
  let* j := getitem resp "publication_articles" in
  let* ids := elements_of j in
  let* articles := articles_from_ids (rev ids) in
  let* to := getitem resp "to" in
  let* next_to := parse_to E to in
  ret (articles, next_to).

(** [while next_to > _to: ...]; every turn of the loop takes one unit
    of fuel *)
Fixpoint paging (fuel : nat) (me : t) (_to next_to : datetime)
    (articles : list nat) : M World (list nat) :=
  if dt_gt next_to _to then
    match fuel with
    | O => fun w => (OutOfFuel, w)
    | S fuel' =>
        let* p := page me next_to in
        paging fuel' me _to (snd p) (articles ++ fst p)
    end
  else ret articles.

(** the function under the decorator *)
Definition get_articles_between_body (fuel : nat)
    (_from _to : option datetime) : M (t * World) (list nat) :=
  let* _from := match _from with
                | None => lift (now E)
                | Some f => ret f
                end in
  let* me := get_self in
  match _to with
  | Some _to =>
      (* [if _from and _to]: a datetime is never false *)
      if dt_lt _to _from then
        let* p := lift (page me _from) in
        let* articles := lift (paging fuel me _to (snd p) (fst p)) in
        lift (fetch_articles E articles None) ;;
        let* selected := lift (select_between _to _from articles) in
        setattr (set_articles (Some selected)) ;;
        ret selected
      else
        lift (print error_line) ;;
        ret []
  | None =>
      let* resp := lift (get_resp E (articles_path me _from)) in
      let* j := getitem resp "publication_articles" in
      let* ids := iterate j in
      let* articles := lift (articles_from_ids ids) in
      setattr (set_articles (Some articles)) ;;
      lift (fetch_articles E articles None) ;;
      ret articles
  end.

(** [get_articles_between], as callers see it: behind [lru_cache].  The
    decorator looks the key of the call up; on a miss it calls the function
    with the arguments of the call, which binds them first, and stores the
    result when the function returns. *)
Definition get_articles_between (fuel : nat) (c : call)
  : M (t * World) (list nat) :=
  fun st =>
    let k := make_key (ident (fst st)) c in
    match lru_get k (lru (snd st)) with
    | Some v => (Ok v, (fst st, set_lru (lru_hit k v) (snd st)))
    | None =>
        match bind_args c with
        | inl e => (Raise e, st)
        | inr (_from, _to) =>
            match get_articles_between_body fuel _from _to st with
            | (Ok v, st') => (Ok v, (fst st', set_lru (lru_miss k v) (snd st')))
            | r => r
            end
        end
    end.

(** the property [articles] *)
Definition articles (fuel : nat) : M (t * World) (list nat) :=
  let* me := get_self in
  match _Publication__articles me with
  | None =>
      (* [self.get_articles_between()] *)
      let* a := get_articles_between fuel (mk_call [] []) in
      setattr (set_articles (Some a)) ;;
      ret a
  | Some a => ret a
  end.
End methods.
End Publication.

(** ** class [TopFeeds] *)

Module TopFeeds.
Record t := mk {
  tag : string;
  mode : string;
  _TopFeeds__ids : option (list json);
  _TopFeeds__articles : option (list nat)
}.

Definition __init__ (tag mode : string) : t := mk tag mode None None.

Definition set_ids (l : option (list json)) (s : t) : t :=
  mk (tag s) (mode s) l (_TopFeeds__articles s).

Definition set_articles (a : option (list nat)) (s : t) : t :=
  mk (tag s) (mode s) (_TopFeeds__ids s) a.

Section methods.
Context (E : Env).

Definition path (self : t) : string :=
  "/topfeeds/" ++ tag self ++ "/" ++ mode self.

(** the property [ids] *)
Definition ids : M (t * World) (list json) :=
  let* me := get_self in
  match _TopFeeds__ids me with
  | None =>
      let* resp := lift (get_resp E (path me)) in
      let* j := getitem resp "topfeeds" in
      let* l := iterate j in
      setattr (set_ids (Some l)) ;;
      ret l
  | Some l => ret l
  end.

Fixpoint read_ids (n : nat) : M (t * World) (list (list json)) :=
  match n with
  | O => ret []
  | S n' =>
      let* l := ids in
      let* ls := read_ids n' in
      ret (l :: ls)
  end.

(** the property [articles] *)
Definition articles : M (t * World) (list nat) :=
  let* me := get_self in
  match _TopFeeds__articles me with
  | None =>
      let* l := ids in
      let* a := lift (new_Articles l) in
      setattr (set_articles (Some a)) ;;
      ret a
  | Some a => ret a
  end.

Definition fetch_articles (max_len : option Z) (content markdown : bool)
  : M (t * World) unit :=
  let* a := articles in
  lift (fetch_articles E a (Some (mk_kwargs max_len content markdown))).
End methods.
End TopFeeds.

(** * The pages a run is served, and the scenarios *)

(** One page as the service hands it out: the cursor it was asked at, the
    identifiers it lists, most recent first, and the bound it reports. *)
Record served_page := mk_page {
  cursor : datetime;
  page_ids : list json;
  bound : datetime
}.

Section Served.
Context (E : Env) (me : Publication.t).

(** what the code reads in a body: the sequence under
    [publication_articles] and the parsed string under [to] *)
Definition decode (r : resp) : option (list json * datetime) :=
  match r !! "publication_articles", r !! "to" with
  | Some j, Some (JStr s) =>
      match sequence j, strptime E s with
      | Some ids, Some t => Some (ids, t)
      | _, _ => None
      end
  | _, _ => None
  end.

Definition answer (h : list string) (c : datetime)
  : option (list json * datetime) :=
  match service E h (Publication.articles_path me c) with
  | inr r => decode r
  | inl _ => None
  end.

(** the first [n] pages the service hands out after the requests [h],
    when asked at [c] and then at each bound it reports in turn *)
Fixpoint served (n : nat) (h : list string) (c : datetime)
  : option (list served_page) :=
  match n with
  | O => Some []
  | S n' =>
      match answer h c with
      | Some (ids, t) =>
          match served n' (h ++ [Publication.articles_path me c]) t with
          | Some l => Some (mk_page c ids t :: l)
          | None => None
          end
      | None => None
      end
  end.

(** the last of the pages is the first one whose bound is not above [_to] *)
Fixpoint stops_at (_to : datetime) (pages : list served_page) : bool :=
  match pages with
  | [] => false
  | pg :: rest =>
      match rest with
      | [] => dt_le (bound pg) _to
      | _ :: _ => dt_gt (bound pg) _to && stops_at _to rest
      end
  end.

(** the world after the allocation of one handle per identifier *)
Fixpoint alloc (ids : list json) (w : World) : World :=
  match ids with
  | [] => w
  | i :: ids' => alloc ids' (snd (new_Article i w))
  end.

(** the world after the request of one page and the allocation of its
    handles *)
Definition page_world (pg : served_page) (w : World) : World :=
  alloc (rev (page_ids pg))
    (log_request (Publication.articles_path me (cursor pg)) w).

Fixpoint pages_world (pages : list served_page) (w : World) : World :=
  match pages with
  | [] => w
  | pg :: rest => pages_world rest (page_world pg w)
  end.

(** the first page and the loop: lines 259 to 266 *)
Definition paging_phase (fuel : nat) (_from _to : datetime)
  : M World (list nat) :=
  let* p := Publication.page E me _from in
  Publication.paging E fuel me _to (snd p) (fst p).

(** the first page and the loop, with [acc] already accumulated *)
Definition phase (fuel : nat) (T c : datetime) (acc : list nat)
  : M World (list nat) :=
  let* p := Publication.page E me c in
  Publication.paging E fuel me T (snd p) (acc ++ fst p).
End Served.

(** In every memoized answer to an interval that is not one, the list is
    empty. *)
Definition lru_sound (w : World) : Prop :=
  forall o c F T v,
    In (make_key o c, v) (lru w) ->
    bind_args c = inr (Some F, Some T) -> dt_lt T F = false -> v = [].

(** the world of a process that has done nothing yet *)
Definition fresh_world : World :=
  mk_World [] O [] (fun _ => mk_Article JNull None) O [] [].

(** The worlds a process can be in: the new one, and the one any method
    modelled here leaves, called on any object in a world the process can
    be in. *)
Inductive reachable (E : Env) : World -> Prop :=
| reach_fresh : reachable E fresh_world
| reach_Newsletter_info self w :
    reachable E w -> reachable E (snd (snd (Newsletter.info E (self, w))))
| reach_Publication_info self w :
    reachable E w -> reachable E (snd (snd (Publication.info E (self, w))))
| reach_get_articles_between fuel c self w :
    reachable E w ->
    reachable E (snd (snd (Publication.get_articles_between E fuel c (self, w))))
| reach_Publication_articles fuel self w :
    reachable E w -> reachable E (snd (snd (Publication.articles E fuel (self, w))))
| reach_TopFeeds_ids self w :
    reachable E w -> reachable E (snd (snd (TopFeeds.ids E (self, w))))
| reach_TopFeeds_articles self w :
    reachable E w -> reachable E (snd (snd (TopFeeds.articles E (self, w))))
| reach_TopFeeds_fetch_articles ml c m self w :
    reachable E w ->
    reachable E (snd (snd (TopFeeds.fetch_articles E ml c m (self, w)))).

(** ** The stub of the scenario *)

Module Stub.
Definition value_of (c : ascii) : option Z :=
  let n := nat_of_ascii c in
  if ((48 <=? n) && (n <=? 57))%nat then Some (Z.of_nat (n - 48)) else None.

Fixpoint number (acc : Z) (l : list ascii) : option Z :=
  match l with
  | [] => Some acc
  | c :: l' =>
      match value_of c with
      | Some v => number (10 * acc + v) l'
      | None => None
      end
  end.

(** A parser for the zero-padded spelling [YYYY-MM-DD HH:MM:SS], the one
    the stubs below answer with. *)
Definition strptime (s : string) : option datetime :=
  match list_ascii_of_string s with
  | [y1; y2; y3; y4; s1; m1; m2; s2; d1; d2; s3; H1; H2; s4; M1; M2; s5; S1; S2] =>
      if bool_decide ([s1; s2; s3; s4; s5] = ["-"; "-"; " "; ":"; ":"]%char) then
        match number 0 [y1; y2; y3; y4], number 0 [m1; m2], number 0 [d1; d2],
              number 0 [H1; H2], number 0 [M1; M2], number 0 [S1; S2] with
        | Some y, Some m, Some d, Some hh, Some mm, Some ss =>
            if ((1 <=? y) && (1 <=? m) && (m <=? 12) && (1 <=? d) && (d <=? 31)
                && (hh <=? 23) && (mm <=? 59) && (ss <=? 59))%Z
            then Some (mk_datetime y m d hh mm ss 0)
            else None
        | _, _, _, _, _, _ => None
        end
      else None
  | _ => None
  end.

(** a body of the articles resource *)
Definition body (ids : list string) (to : string) : resp :=
  <[ "publication_articles" := JList (JStr <$> ids) ]> (<[ "to" := JStr to ]> ∅).

(** a service that answers by the path alone, from a table *)
Definition table_service (table : list (string * resp))
  : list string -> string -> exn + resp :=
  fun _ p =>
    match List.find (fun e => bool_decide (fst e = p)) table with
    | Some e => inr (snd e)
    | None => inl (ServiceError "404")
    end.

(** a collaborator that sets [published_at] on the handles it is given,
    from the identifier of each *)
Definition hydrate (stamp : json -> option datetime)
  : list nat -> option fetch_kwargs -> (nat -> Article) ->
    option exn * (nat -> Article) :=
  fun l _ h =>
    (None,
     fun n => if existsb (Nat.eqb n) l
              then mk_Article (article_id (h n)) (stamp (article_id (h n)))
              else h n).

Definition jan10 := mk_datetime 2024 1 10 0 0 0 0.
Definition jan05 := mk_datetime 2024 1 5 0 0 0 0.
Definition jan01 := mk_datetime 2024 1 1 0 0 0 0.
Definition dec30 := mk_datetime 2023 12 30 0 0 0 0.

Definition pub : Publication.t := Publication.__init__ 0 "98111c9905da".

(** page 1, asked at 2024-01-10, lists a, b, c and reports 2024-01-05;
    page 2, asked at 2024-01-05, lists d, e and reports 2023-12-30 *)
Definition two_pages : list (string * resp) :=
  [ ("/publication/98111c9905da/articles?from=2024-01-10T00:00:00",
     body ["a"; "b"; "c"] "2024-01-05 00:00:00");
    ("/publication/98111c9905da/articles?from=2024-01-05T00:00:00",
     body ["d"; "e"] "2023-12-30 00:00:00") ].

Definition info_body : resp :=
  <[ "name" := JStr "Towards Data Science" ]> (<[ "followers" := JInt 700000 ]> ∅).

Definition newsletter_body : resp :=
  <[ "name" := JStr "The Variable" ]> (<[ "subscribers" := JInt 5000 ]> ∅).

Definition topfeeds_body : resp :=
  <[ "topfeeds" := JList [JStr "x"; JStr "y"; JStr "z"] ]> ∅.

(** the resources of the stub: the two pages, the info of the publication
    and of its newsletter, and one list of top feeds *)
Definition site : list (string * resp) :=
  two_pages ++
  [ ("/publication/98111c9905da", info_body);
    ("/publication/98111c9905da/newsletter", newsletter_body);
    ("/topfeeds/blockchain/hot", topfeeds_body) ].

Definition env (stamp : json -> option datetime) : Env :=
  mk_Env (table_service site) (fun _ => jan10) strptime (hydrate stamp).

Definition path_jan10 : string :=
  "/publication/98111c9905da/articles?from=2024-01-10T00:00:00".
Definition path_jan05 : string :=
  "/publication/98111c9905da/articles?from=2024-01-05T00:00:00".

(** a service whose two pages list the same article *)
Definition same_article : list (string * resp) :=
  [ (path_jan10, body ["a"] "2024-01-05 00:00:00");
    (path_jan05, body ["a"] "2023-12-30 00:00:00") ].

Definition env_same_article : Env :=
  mk_Env (table_service same_article) (fun _ => jan10) strptime
         (hydrate (fun _ => Some jan05)).

(** publication times that put every article of the two pages inside
    the window of its page, and inside [2024-01-01, 2024-01-10] *)
Definition stamp (j : json) : datetime :=
  match j with
  | JStr "a" => mk_datetime 2024 1 9 8 0 0 0
  | JStr "b" => mk_datetime 2024 1 7 8 0 0 0
  | JStr "c" => mk_datetime 2024 1 5 8 0 0 0
  | JStr "d" => mk_datetime 2024 1 4 8 0 0 0
  | JStr "e" => mk_datetime 2024 1 2 8 0 0 0
  | _ => jan01
  end.

Definition all_inside (j : json) : option datetime := Some (stamp j).

Definition feed : TopFeeds.t := TopFeeds.__init__ "blockchain" "hot".
End Stub.

(** ** A service that fails *)

Module Faults.

End Faults.

(** ** Notions the properties are stated with *)

(** [m] leaves the part [f] of the state as it is, whatever its outcome. *)
Definition preserves {S A X} (f : S -> X) (m : M S A) : Prop :=
  forall s, f (snd (m s)) = f s.

(** the value [_from] stands for in a call made in the world [w] *)
Definition effective_from (E : Env) (_from : option datetime) (w : World)
  : datetime :=
  match _from with
  | Some f => f
  | None => clock E (clock_reads w)
  end.

(** the world in which the body goes on once [_from] is settled *)
Definition settled (_from : option datetime) (w : World) : World :=
  match _from with
  | Some _ => w
  | None => tick w
  end.

(** [published_at] is set and within [[_to, _from]], both ends included *)
Definition in_window (_to _from : datetime) (a : Article) : bool :=
  match published_at a with
  | Some p => dt_le _to p && dt_le p _from
  | None => false
  end.

(** the identifiers of the handles [l], read in the world [w] *)
Definition ids_of (w : World) (l : list nat) : list json :=
  map (fun a => article_id (heap w a)) l.

(** the identifiers of the merged list: every page reversed, the pages in
    the order of the requests *)
Definition merged_ids (pages : list served_page) : list json :=
  flat_map (fun pg => rev (page_ids pg)) pages.

(** the bound a page reports is strictly below the cursor it was asked
    at *)
Definition decreasing (pg : served_page) : Prop :=
  dt_lt (bound pg) (cursor pg) = true.

(** The window of a page runs from the bound it reports to the cursor it
    was asked at.  The windows of pages asked one after the other, each at
    the bound of the one before, are contiguous; they do not overlap when
    every window holds one of its ends only, the upper one ([upper = true])
    or the lower one.  A page is within its window when every identifier it
    lists was published, at the time [stamp] gives it, inside the window. *)
Definition windowed (upper : bool) (stamp : json -> datetime)
    (pg : served_page) : Prop :=
  forall i, In i (page_ids pg) ->
    if upper
    then dt_lt (bound pg) (stamp i) = true /\ dt_le (stamp i) (cursor pg) = true
    else dt_le (bound pg) (stamp i) = true /\ dt_lt (stamp i) (cursor pg) = true.

(** no identifier of the first page is on the second *)
Definition disjoint_pages (pg pg' : served_page) : Prop :=
  forall i, In i (page_ids pg) -> ~ In i (page_ids pg').

(** ** The pages and the runs of the stub *)

Definition page1 : served_page :=
  mk_page Stub.jan10 [JStr "a"; JStr "b"; JStr "c"] Stub.jan05.
Definition page2 : served_page :=
  mk_page Stub.jan05 [JStr "d"; JStr "e"] Stub.dec30.

(** the world after the collaborator has run on the five handles *)
Definition stub_world (stamp : json -> option datetime) : World :=
  snd (fetch_articles (Stub.env stamp) [0; 1; 2; 3; 4]%nat None
         (pages_world Stub.pub [page1; page2] fresh_world)).

Definition E0 : Env := Stub.env Stub.all_inside.
Definition st0 : Publication.t * World := (Stub.pub, fresh_world).

(** [get_articles_between(2024-01-10, 2024-01-01)], the call of the
    scenario *)
Definition call_scenario : call :=
  mk_call [Some Stub.jan10; Some Stub.jan01] [].

(** the same call, with the arguments given by keyword *)
Definition call_keywords : call :=
  mk_call [] [("_from", Some Stub.jan10); ("_to", Some Stub.jan01)].

(** [get_articles_between(2024-01-01, 2024-01-10)]: the bounds swapped *)
Definition call_swapped : call :=
  mk_call [Some Stub.jan01; Some Stub.jan10] [].

(** [get_articles_between(2024-01-10)] *)
Definition call_page : call := mk_call [Some Stub.jan10] [].

(** [get_articles_between()] *)
Definition call_bare : call := mk_call [] [].

(** the state after the call on [2024-01-01, 2024-01-10] *)
Definition st1 : Publication.t * World :=
  snd (Publication.get_articles_between E0 5 call_scenario st0).

(** and after the call for the page at 2024-01-10 that followed *)
Definition st2 : Publication.t * World :=
  snd (Publication.get_articles_between E0 5 call_page st1).

(** the state after a call on an interval that is not one *)
Definition st_invalid : Publication.t * World :=
  snd (Publication.get_articles_between E0 0 call_swapped st0).

(** the state after a call with [_to] unset *)
Definition st_page : Publication.t * World :=
  snd (Publication.get_articles_between E0 0 call_page st0).


(** * Properties *)

Example isoformat_ex :
  isoformat (mk_datetime 2024 1 10 0 0 0 0) = "2024-01-10T00:00:00".
Proof. reflexivity. Qed.


(** ** The monad *)

Lemma bind_Ok {S A B} (m : M S A) (k : A -> M S B) s a s' :
  m s = (Ok a, s') -> bind m k s = k a s'.
Proof. intros H. unfold bind. now rewrite H. Qed.

Lemma bind_inv {S A B} (m : M S A) (k : A -> M S B) s b s2 :
  bind m k s = (Ok b, s2) ->
  exists a s1, m s = (Ok a, s1) /\ k a s1 = (Ok b, s2).
Proof.
  unfold bind. destruct (m s) as [[a| |] s1]; try discriminate.
  intros H. now exists a, s1.
Qed.

Ltac unfold_monad :=
  unfold bind, ret, raise, lift, get_self, setattr, getitem, elements_of,
    iterate in *;
  simpl in *.

(** ** Reading [info] *)

Section Info.
Context (E : Env).

Lemma Publication_info_cached self w d :
  Publication._Publication__info self = Some d ->
  Publication.info E (self, w) = (Ok d, (self, w)).
Proof.
  intros H. unfold Publication.info. unfold_monad. now rewrite H.
Qed.

Lemma Publication_info_first self w r :
  Publication._Publication__info self = None ->
  service E (requests w) (Publication.info_path self) = inr r ->
  Publication.info E (self, w) =
    (Ok r, (Publication.set_info (Some r) self,
            log_request (Publication.info_path self) w)).
Proof.
  intros H Hs. unfold Publication.info, get_resp. unfold_monad.
  rewrite H. simpl. now rewrite Hs.
Qed.

Lemma Publication_read_cached n self w d :
  Publication._Publication__info self = Some d ->
  Publication.read_info E n (self, w) = (Ok (replicate n d), (self, w)).
Proof.
  intros H. induction n as [|n IH]; [reflexivity|].
  simpl. erewrite bind_Ok by (apply Publication_info_cached; eassumption).
  erewrite bind_Ok by exact IH. reflexivity.
Qed.

Lemma Newsletter_info_cached self w d :
  Newsletter._Newsletter__info self = Some d ->
  Newsletter.info E (self, w) = (Ok d, (self, w)).
Proof.
  intros H. unfold Newsletter.info. unfold_monad. now rewrite H.
Qed.

Lemma Newsletter_info_first self w r :
  Newsletter._Newsletter__info self = None ->
  service E (requests w) (Newsletter.path self) = inr r ->
  Newsletter.info E (self, w) =
    (Ok r, (Newsletter.set_info (Some r) self,
            log_request (Newsletter.path self) w)).
Proof.
  intros H Hs. unfold Newsletter.info, get_resp. unfold_monad.
  rewrite H. simpl. now rewrite Hs.
Qed.

Lemma Newsletter_read_cached n self w d :
  Newsletter._Newsletter__info self = Some d ->
  Newsletter.read_info E n (self, w) = (Ok (replicate n d), (self, w)).
Proof.
  intros H. induction n as [|n IH]; [reflexivity|].
  simpl. erewrite bind_Ok by (apply Newsletter_info_cached; eassumption).
  erewrite bind_Ok by exact IH. reflexivity.
Qed.
End Info.

(** C8.  On a [Publication] and on a [Newsletter] whose [info] was not read
    yet, and a service that answers the request, any number [n + 1] of
    readings of [info] returns the same mapping every time, fills the cache
    with it, and extends the log of requests by the one path of the
    resource: one request in all. *)
Theorem info_one_request (E : Env) (n : nat) :
  (forall self w r,
     Publication._Publication__info self = None ->
     service E (requests w) (Publication.info_path self) = inr r ->
     Publication.read_info E (S n) (self, w) =
       (Ok (replicate (S n) r),
        (Publication.set_info (Some r) self,
         log_request (Publication.info_path self) w)))
  /\
  (forall self w r,
     Newsletter._Newsletter__info self = None ->
     service E (requests w) (Newsletter.path self) = inr r ->
     Newsletter.read_info E (S n) (self, w) =
       (Ok (replicate (S n) r),
        (Newsletter.set_info (Some r) self,
         log_request (Newsletter.path self) w))).
Proof.
  split; intros self w r Hnone Hs.
  - change (Publication.read_info E (S n)) with
      (let* d := Publication.info E in
       let* l := Publication.read_info E n in ret (d :: l)).
    erewrite bind_Ok by (apply Publication_info_first; eassumption).
    erewrite bind_Ok by (apply Publication_read_cached; reflexivity).
    reflexivity.
  - change (Newsletter.read_info E (S n)) with
      (let* d := Newsletter.info E in
       let* l := Newsletter.read_info E n in ret (d :: l)).
    erewrite bind_Ok by (apply Newsletter_info_first; eassumption).
    erewrite bind_Ok by (apply Newsletter_read_cached; reflexivity).
    reflexivity.
Qed.

(** ** [TopFeeds] *)

Section TopFeeds_facts.
Context (E : Env).

Lemma new_Articles_alloc ids w :
  new_Articles ids w = (Ok (seq (next_obj w) (length ids)), alloc ids w).
Proof.
  revert w. induction ids as [|i ids IH]; intros w; [reflexivity|].
  simpl. unfold bind at 1. simpl. unfold bind at 1. rewrite IH. reflexivity.
Qed.

Lemma ids_cached self w l :
  TopFeeds._TopFeeds__ids self = Some l ->
  TopFeeds.ids E (self, w) = (Ok l, (self, w)).
Proof. intros H. unfold TopFeeds.ids. unfold_monad. now rewrite H. Qed.

Lemma ids_first self w r l :
  TopFeeds._TopFeeds__ids self = None ->
  service E (requests w) (TopFeeds.path self) = inr r ->
  r !! "topfeeds" = Some (JList l) ->
  TopFeeds.ids E (self, w) =
    (Ok l, (TopFeeds.set_ids (Some l) self,
            log_request (TopFeeds.path self) w)).
Proof.
  intros H Hs Hr. unfold TopFeeds.ids, get_resp. unfold_monad.
  rewrite H. simpl. rewrite Hs. simpl. rewrite Hr. reflexivity.
Qed.

Lemma read_ids_cached n self w l :
  TopFeeds._TopFeeds__ids self = Some l ->
  TopFeeds.read_ids E n (self, w) = (Ok (replicate n l), (self, w)).
Proof.
  intros H. induction n as [|n IH]; [reflexivity|].
  simpl. erewrite bind_Ok by (apply ids_cached; eassumption).
  erewrite bind_Ok by exact IH. reflexivity.
Qed.

Lemma articles_cached self w a :
  TopFeeds._TopFeeds__articles self = Some a ->
  TopFeeds.articles E (self, w) = (Ok a, (self, w)).
Proof. intros H. unfold TopFeeds.articles. unfold_monad. now rewrite H. Qed.

Lemma articles_first self w r l :
  TopFeeds._TopFeeds__ids self = None ->
  TopFeeds._TopFeeds__articles self = None ->
  service E (requests w) (TopFeeds.path self) = inr r ->
  r !! "topfeeds" = Some (JList l) ->
  TopFeeds.articles E (self, w) =
    (Ok (seq (next_obj w) (length l)),
     (TopFeeds.set_articles (Some (seq (next_obj w) (length l)))
        (TopFeeds.set_ids (Some l) self),
      alloc l (log_request (TopFeeds.path self) w))).
Proof.
  intros Hi Ha Hs Hr. unfold TopFeeds.articles.
  unfold bind at 1. unfold get_self at 1. simpl. rewrite Ha.
  erewrite bind_Ok by (eapply ids_first; eassumption).
  unfold bind at 1. unfold lift at 1. simpl.
  rewrite new_Articles_alloc. reflexivity.
Qed.

Lemma alloc_delegated ids w : delegated (alloc ids w) = delegated w.
Proof. revert w. induction ids as [|i ids IH]; intros w; [reflexivity|]. simpl. now rewrite IH. Qed.

Lemma alloc_requests ids w : requests (alloc ids w) = requests w.
Proof. revert w. induction ids as [|i ids IH]; intros w; [reflexivity|]. simpl. now rewrite IH. Qed.

Lemma alloc_lru ids w : lru (alloc ids w) = lru w.
Proof. revert w. induction ids as [|i ids IH]; intros w; [reflexivity|]. simpl. now rewrite IH. Qed.

Lemma alloc_next_obj ids w : next_obj (alloc ids w) = (next_obj w + length ids)%nat.
Proof.
  revert w. induction ids as [|i ids IH]; intros w; simpl; [lia|].
  rewrite IH. simpl. lia.
Qed.

Lemma alloc_heap_old ids w n :
  (n < next_obj w)%nat -> heap (alloc ids w) n = heap w n.
Proof.
  revert w. induction ids as [|i ids IH]; intros w Hn; [reflexivity|].
  simpl. rewrite IH by (simpl; lia). simpl.
  destruct (Nat.eqb_spec n (next_obj w)); [lia|reflexivity].
Qed.

Lemma alloc_heap_new ids w :
  map (fun x => heap (alloc ids w) x) (seq (next_obj w) (length ids))
    = map (fun i => mk_Article i None) ids.
Proof.
  revert w. induction ids as [|i ids IH]; intros w; [reflexivity|].
  simpl. f_equal.
  - rewrite alloc_heap_old by (simpl; lia). simpl.
    now rewrite Nat.eqb_refl.
  - apply (IH (snd (new_Article i w))).
Qed.

Lemma alloc_ids ids w :
  map (fun x => article_id (heap (alloc ids w) x)) (seq (next_obj w) (length ids))
    = ids.
Proof.
  change (fun x => article_id (heap (alloc ids w) x))
    with (fun x => article_id ((fun y => heap (alloc ids w) y) x)).
  rewrite <- (map_map (fun y => heap (alloc ids w) y) article_id).
  rewrite alloc_heap_new, map_map. simpl. apply map_id.
Qed.

Lemma fetch_delegates ml c m st a st1 :
  TopFeeds.articles E st = (Ok a, st1) ->
  delegated (snd (snd (TopFeeds.fetch_articles E ml c m st)))
    = delegated (snd st1) ++ [(a, Some (mk_kwargs ml c m))].
Proof.
  intros H. unfold TopFeeds.fetch_articles.
  erewrite bind_Ok by exact H.
  unfold lift, fetch_articles. simpl.
  destruct (fst (bulk_fetch E a _ _)); reflexivity.
Qed.
End TopFeeds_facts.

(** C9.  On a [TopFeeds] that was not read yet and a service that answers
    its one resource with a list under [topfeeds]:
    - any number [n + 1] of readings of [ids] returns that list every time
      and makes one request;
    - the first reading of [articles] makes that one request and builds one
      handle per identifier; a second reading returns the same list of
      handles and changes nothing: no request, no new handle;
    - from then on, in whatever world, a call of [fetch_articles] adds one
      entry to the calls received by the collaborator, the cached list of
      handles with the three keyword arguments, makes no request and leaves
      the object as it is. *)
Theorem topfeeds_cached_once (E : Env) self w r l :
  TopFeeds._TopFeeds__ids self = None ->
  TopFeeds._TopFeeds__articles self = None ->
  service E (requests w) (TopFeeds.path self) = inr r ->
  r !! "topfeeds" = Some (JList l) ->
  (forall n,
     exists st', TopFeeds.read_ids E (S n) (self, w) = (Ok (replicate (S n) l), st')
       /\ requests (snd st') = requests w ++ [TopFeeds.path self])
  /\
  (exists a st1,
     TopFeeds.articles E (self, w) = (Ok a, st1)
     /\ TopFeeds.articles E st1 = (Ok a, st1)
     /\ map (fun x => article_id (heap (snd st1) x)) a = l
     /\ requests (snd st1) = requests w ++ [TopFeeds.path self]
     /\ next_obj (snd st1) = (next_obj w + length l)%nat
     /\ forall ml c m w2,
          let st2 := snd (TopFeeds.fetch_articles E ml c m (fst st1, w2)) in
          delegated (snd st2) = delegated w2 ++ [(a, Some (mk_kwargs ml c m))]
          /\ fst st2 = fst st1
          /\ requests (snd st2) = requests w2).
Proof.
  intros Hi Ha Hs Hr. split.
  - intros n. eexists. split.
    + change (TopFeeds.read_ids E (S n)) with
        (let* x := TopFeeds.ids E in
         let* xs := TopFeeds.read_ids E n in ret (x :: xs)).
      erewrite bind_Ok by (eapply ids_first; eassumption).
      erewrite bind_Ok by (apply read_ids_cached; reflexivity).
      reflexivity.
    + reflexivity.
  - eexists. eexists. split; [eapply articles_first; eassumption|].
    split; [apply articles_cached; reflexivity|].
    cbn [fst snd]. split; [|split; [|split]].
    + apply (alloc_ids l (log_request (TopFeeds.path self) w)).
    + now rewrite alloc_requests.
    + now rewrite alloc_next_obj.
    + intros ml c m w2. cbn zeta. split; [|split].
      * erewrite fetch_delegates by (apply articles_cached; reflexivity).
        reflexivity.
      * unfold TopFeeds.fetch_articles.
        erewrite bind_Ok by (apply articles_cached; reflexivity).
        unfold lift, fetch_articles. cbn [fst snd heap].
        try case_match; reflexivity.
      * unfold TopFeeds.fetch_articles.
        erewrite bind_Ok by (apply articles_cached; reflexivity).
        unfold lift, fetch_articles. cbn [fst snd heap].
        try case_match; reflexivity.
Qed.

(** ** The memoizing table *)

Section Lru.
Implicit Types (k : lru_key) (v : list nat) (c : list (lru_key * list nat)).

Lemma lru_get_In k v c : lru_get k c = Some v -> In (k, v) c.
Proof.
  unfold lru_get. destruct (List.find _ c) as [[k' v']|] eqn:Hf; [|discriminate].
  simpl. intros [= <-]. apply find_some in Hf as [Hin Hk].
  apply bool_decide_eq_true in Hk. simpl in Hk. now subst k'.
Qed.





Lemma In_removelast {A} (x : A) (l : list A) : In x (removelast l) -> In x l.
Proof.
  induction l as [|y l IH]; [trivial|].
  simpl. destruct l as [|z l]; [intros []|].
  intros [->|H]; [now left|right; now apply IH].
Qed.



Lemma In_lru_hit k v c e :
  In e (lru_hit k v c) -> e = (k, v) \/ In e c.
Proof.
  unfold lru_hit. intros [<-|H]; [now left|].
  right. now apply filter_In in H as [H _].
Qed.

Lemma In_lru_miss k v c e :
  In e (lru_miss k v c) -> e = (k, v) \/ In e c.
Proof.
  unfold lru_miss. intros [<-|H]; [now left|].
  right. destruct (length c <? maxsize)%nat; [exact H|now apply In_removelast].
Qed.

(** the table never holds more than [maxsize] entries once it holds no
    more than that *)
Lemma lru_miss_bounded k v c :
  (length c <= maxsize)%nat -> (length (lru_miss k v c) <= maxsize)%nat.
Proof.
  intros H. unfold lru_miss. simpl.
  destruct (Nat.ltb_spec (length c) maxsize) as [Hlt|Hge]; [lia|].
  rewrite removelast_firstn_len, length_firstn. unfold maxsize in *. lia.
Qed.
End Lru.

(** ** What the operations on the world keep *)

Lemma preserves_ret {S A X} (f : S -> X) (a : A) : preserves f (ret a).
Proof. intros s. reflexivity. Qed.

Lemma preserves_raise {S A X} (f : S -> X) e : preserves f (@raise S A e).
Proof. intros s. reflexivity. Qed.

Lemma preserves_bind {S A B X} (f : S -> X) (m : M S A) (k : A -> M S B) :
  preserves f m -> (forall a, preserves f (k a)) -> preserves f (bind m k).
Proof.
  intros Hm Hk s. unfold bind. specialize (Hm s).
  destruct (m s) as [[a| |] s1]; simpl in *; try exact Hm.
  rewrite Hk. exact Hm.
Qed.

Lemma preserves_lift {S W A X} (f : W -> X) (m : M W A) :
  preserves f m -> preserves (fun st : S * W => f (snd st)) (lift m).
Proof. intros Hm [s w]. unfold lift. simpl. apply Hm. Qed.


Lemma preserves_getitem {S X} (f : S -> X) d k : preserves f (getitem d k).
Proof. unfold getitem. destruct (d !! k); [apply preserves_ret|apply preserves_raise]. Qed.

Lemma preserves_elements_of {S X} (f : S -> X) j : preserves f (elements_of j).
Proof.
  unfold elements_of. destruct (sequence j); [apply preserves_ret|apply preserves_raise].
Qed.

Lemma preserves_iterate {S X} (f : S -> X) j : preserves f (iterate j).
Proof.
  unfold iterate. destruct (items j); [apply preserves_ret|apply preserves_raise].
Qed.

Create HintDb keeps.
#[local] Hint Resolve preserves_ret preserves_raise preserves_getitem
  preserves_elements_of preserves_iterate : keeps.

Section Keeps.
Context (E : Env).

Lemma get_resp_lru p : preserves lru (get_resp E p).
Proof. intros w. unfold get_resp. destruct (service E _ _); reflexivity. Qed.

Lemma now_lru : preserves lru (now E).
Proof. intros w. reflexivity. Qed.

Lemma print_lru s : preserves lru (print s).
Proof. intros w. reflexivity. Qed.

Lemma new_Articles_lru ids : preserves lru (new_Articles ids).
Proof. intros w. rewrite new_Articles_alloc. apply alloc_lru. Qed.

Lemma fetch_articles_lru l kw : preserves lru (fetch_articles E l kw).
Proof. intros w. unfold fetch_articles. destruct (fst _); reflexivity. Qed.

Lemma parse_to_keeps {S X} (f : S -> X) j : preserves f (parse_to E j).
Proof.
  destruct j; try apply preserves_raise. simpl.
  destruct (strptime E s); [apply preserves_ret|apply preserves_raise].
Qed.

Lemma select_between_same T F l w : snd (select_between T F l w) = w.
Proof.
  induction l as [|a l IH]; [reflexivity|].
  simpl. destruct (published_at (heap w a)); [|reflexivity].
  unfold bind. destruct (select_between T F l w) as [[x| |] w1]; simpl in *; congruence.
Qed.

Lemma select_between_lru T F l : preserves lru (select_between T F l).
Proof. intros w. now rewrite select_between_same. Qed.

Lemma page_lru me c : preserves lru (Publication.page E me c).
Proof.
  unfold Publication.page, Publication.articles_from_ids.
  repeat (apply preserves_bind; [|intros ?]);
    auto using get_resp_lru, new_Articles_lru, parse_to_keeps with keeps.
Qed.

Lemma paging_lru fuel me T c acc : preserves lru (Publication.paging E fuel me T c acc).
Proof.
  revert c acc. induction fuel as [|fuel IH]; intros c acc; simpl.
  - destruct (dt_gt c T); [intros w; reflexivity|apply preserves_ret].
  - destruct (dt_gt c T); [|apply preserves_ret].
    apply preserves_bind; [apply page_lru|]. intros p. apply IH.
Qed.

Lemma setattr_lru {S} (f : S -> S) :
  preserves (fun st : S * World => lru (snd st)) (setattr f).
Proof. intros st. reflexivity. Qed.

Lemma body_lru fuel _from _to :
  preserves (fun st => lru (snd st))
            (Publication.get_articles_between_body E fuel _from _to).
Proof.
  unfold Publication.get_articles_between_body, Publication.articles_from_ids.
  apply preserves_bind.
  { destruct _from; [apply preserves_ret|].
    apply (preserves_lift lru). apply now_lru. }
  intros F. apply preserves_bind; [intros st; reflexivity|]. intros me.
  destruct _to as [T|].
  - destruct (dt_lt T F).
    + repeat (apply preserves_bind; [|intros ?]);
        try apply setattr_lru; try apply (preserves_lift lru);
        auto using page_lru, paging_lru, fetch_articles_lru, select_between_lru
          with keeps.
    + repeat (apply preserves_bind; [|intros ?]);
        try apply (preserves_lift lru); auto using print_lru with keeps.
  - repeat (apply preserves_bind; [|intros ?]);
      try apply setattr_lru; try apply (preserves_lift lru);
      auto using get_resp_lru, new_Articles_lru, fetch_articles_lru with keeps.
Qed.
End Keeps.

(** ** [get_articles_between] *)

Lemma dt_ge_lt a b : dt_ge a b = negb (dt_lt a b).
Proof. unfold dt_ge, dt_lt. now destruct (_cmp a b). Qed.

Lemma dt_gt_le a b : dt_gt a b = negb (dt_le a b).
Proof. unfold dt_gt, dt_le. now destruct (_cmp a b). Qed.


Section Between.
Context (E : Env).

Lemma between_hit fuel c self w v :
  lru_get (make_key (Publication.ident self) c) (lru w) = Some v ->
  Publication.get_articles_between E fuel c (self, w)
    = (Ok v, (self, set_lru (lru_hit (make_key (Publication.ident self) c) v) w)).
Proof.
  intros H. unfold Publication.get_articles_between. cbn [fst snd]. now rewrite H.
Qed.

Lemma between_miss fuel c _from _to self w :
  lru_get (make_key (Publication.ident self) c) (lru w) = None ->
  bind_args c = inr (_from, _to) ->
  Publication.get_articles_between E fuel c (self, w)
    = match Publication.get_articles_between_body E fuel _from _to (self, w) with
      | (Ok v, st') =>
          (Ok v, (fst st',
                  set_lru (lru_miss (make_key (Publication.ident self) c) v) (snd st')))
      | r => r
      end.
Proof.
  intros H Hb. unfold Publication.get_articles_between. cbn [fst snd].
  now rewrite H, Hb.
Qed.

(** a call whose arguments do not bind raises, and changes nothing *)
Lemma between_unbound fuel c e self w :
  lru_get (make_key (Publication.ident self) c) (lru w) = None ->
  bind_args c = inl e ->
  Publication.get_articles_between E fuel c (self, w) = (Raise e, (self, w)).
Proof.
  intros H Hb. unfold Publication.get_articles_between. cbn [fst snd].
  now rewrite H, Hb.
Qed.

Lemma make_key_inj o c o' c' : make_key o c = make_key o' c' -> o = o' /\ c = c'.
Proof. destruct c, c'. unfold make_key. cbn. intros [= -> -> ->]. auto. Qed.


(** the body on an interval that is not one *)
Lemma body_invalid fuel _from T self w :
  dt_lt T (effective_from E _from w) = false ->
  Publication.get_articles_between_body E fuel _from (Some T) (self, w)
    = (Ok [], (self, log_line Publication.error_line (settled _from w))).
Proof.
  intros H. unfold Publication.get_articles_between_body.
  destruct _from as [F|]; simpl in H; unfold_monad; unfold now, print;
    simpl; rewrite H; reflexivity.
Qed.

Lemma articles_cached_P fuel self w a :
  Publication._Publication__articles self = Some a ->
  Publication.articles E fuel (self, w) = (Ok a, (self, w)).
Proof. intros H. unfold Publication.articles. unfold_monad. now rewrite H. Qed.
End Between.


(** C10.  A call of [get_articles_between], however its arguments are
    spelled, on an interval that is not one ([_to >= _from], where an unset
    [_from] stands for the time of the call) leaves every attribute of the [Publication] as it was, the cached
    articles among them; a list cached before is what the property
    [articles] returns afterwards, without any further effect. *)
Theorem invalid_interval_keeps_articles (E : Env) fuel fuel' (c : call)
    _from T self w :
  bind_args c = inr (_from, Some T) ->
  dt_ge T (effective_from E _from w) = true ->
  let st' := snd (Publication.get_articles_between E fuel c (self, w)) in
  fst st' = self
  /\ forall l, Publication._Publication__articles self = Some l ->
               Publication.articles E fuel' st' = (Ok l, st').
Proof.
  intros Hc Hge. rewrite dt_ge_lt in Hge. apply negb_true_iff in Hge.
  assert (Hself :
    fst (snd (Publication.get_articles_between E fuel c (self, w))) = self).
  { destruct (lru_get (make_key (Publication.ident self) c) (lru w)) as [v|] eqn:Hk.
    - now rewrite (between_hit E _ _ _ _ _ Hk).
    - rewrite (between_miss E _ _ _ _ _ _ Hk Hc).
      now rewrite (body_invalid E _ _ _ _ _ Hge). }
  cbn zeta. split; [exact Hself|].
  intros l Hl.
  destruct (snd (Publication.get_articles_between E fuel c (self, w)))
    as [self' w'] eqn:Hst.
  simpl in Hself. subst self'. now apply articles_cached_P.
Qed.

Section Invariant.
Context (E : Env).

Lemma lru_sound_fresh : lru_sound fresh_world.
Proof. intros o c F T v []. Qed.

Lemma lru_sound_same w w' : lru w' = lru w -> lru_sound w -> lru_sound w'.
Proof. unfold lru_sound. intros ->. trivial. Qed.

(** [get_articles_between] keeps the table sound *)
Lemma between_sound fuel c self w :
  lru_sound w ->
  lru_sound (snd (snd (Publication.get_articles_between E fuel c (self, w)))).
Proof.
  intros Hs.
  destruct (lru_get (make_key (Publication.ident self) c) (lru w)) as [v|] eqn:Hk.
  - rewrite (between_hit E _ _ _ _ _ Hk). simpl.
    intros o c' F T v' Hin Hc' Hlt. apply In_lru_hit in Hin as [Heq|Hin].
    + pose proof (f_equal fst Heq) as H1. pose proof (f_equal snd Heq) as H2.
      cbn [fst snd] in H1, H2. subst v'. rewrite <- H1 in Hk.
      apply lru_get_In in Hk. eauto.
    + eauto.
  - destruct (bind_args c) as [e|[_from _to]] eqn:Hc.
    { now rewrite (between_unbound E _ _ _ _ _ Hk Hc). }
    rewrite (between_miss E _ _ _ _ _ _ Hk Hc).
    pose proof (body_lru E fuel _from _to (self, w)) as Hl.
    destruct (Publication.get_articles_between_body E fuel _from _to (self, w))
      as [[x| |] [self' w']] eqn:Hb; simpl in Hl |- *;
      try (eapply lru_sound_same; eassumption).
    intros o c' F T v' Hin Hc' Hlt. apply In_lru_miss in Hin as [Heq|Hin].
    + pose proof (f_equal fst Heq) as H1. pose proof (f_equal snd Heq) as H2.
      cbn [fst snd] in H1, H2. subst v'. apply make_key_inj in H1 as [_ <-].
      rewrite Hc in Hc'. injection Hc' as -> ->.
      rewrite (body_invalid E fuel (Some F) T self w Hlt) in Hb. congruence.
    + rewrite Hl in Hin. eauto.
Qed.

Lemma Publication_info_lru :
  preserves (fun st => lru (snd st)) (Publication.info E).
Proof.
  unfold Publication.info.
  apply preserves_bind; [intros st; reflexivity|]. intros me.
  destruct (Publication._Publication__info me); [apply preserves_ret|].
  repeat (apply preserves_bind; [|intros ?]);
    try apply (preserves_lift lru); try apply setattr_lru;
    auto using get_resp_lru with keeps.
Qed.

Lemma Newsletter_info_lru :
  preserves (fun st => lru (snd st)) (Newsletter.info E).
Proof.
  unfold Newsletter.info.
  apply preserves_bind; [intros st; reflexivity|]. intros me.
  destruct (Newsletter._Newsletter__info me); [apply preserves_ret|].
  repeat (apply preserves_bind; [|intros ?]);
    try apply (preserves_lift lru); try apply setattr_lru;
    auto using get_resp_lru with keeps.
Qed.

Lemma TopFeeds_ids_lru :
  preserves (fun st => lru (snd st)) (TopFeeds.ids E).
Proof.
  unfold TopFeeds.ids.
  apply preserves_bind; [intros st; reflexivity|]. intros me.
  destruct (TopFeeds._TopFeeds__ids me); [apply preserves_ret|].
  repeat (apply preserves_bind; [|intros ?]);
    try apply (preserves_lift lru); try apply setattr_lru;
    auto using get_resp_lru with keeps.
Qed.

Lemma TopFeeds_articles_lru :
  preserves (fun st => lru (snd st)) (TopFeeds.articles E).
Proof.
  unfold TopFeeds.articles.
  apply preserves_bind; [intros st; reflexivity|]. intros me.
  destruct (TopFeeds._TopFeeds__articles me); [apply preserves_ret|].
  apply preserves_bind; [apply TopFeeds_ids_lru|]. intros l.
  repeat (apply preserves_bind; [|intros ?]);
    try apply (preserves_lift lru); try apply setattr_lru;
    auto using new_Articles_lru with keeps.
Qed.

Lemma TopFeeds_fetch_articles_lru ml c m :
  preserves (fun st => lru (snd st)) (TopFeeds.fetch_articles E ml c m).
Proof.
  unfold TopFeeds.fetch_articles.
  apply preserves_bind; [apply TopFeeds_articles_lru|]. intros a.
  apply (preserves_lift lru). apply fetch_articles_lru.
Qed.

(** the property [articles] keeps the table sound *)
Lemma articles_sound fuel self w :
  lru_sound w ->
  lru_sound (snd (snd (Publication.articles E fuel (self, w)))).
Proof.
  intros Hs. unfold Publication.articles.
  unfold bind at 1. unfold get_self at 1. cbn [fst snd].
  destruct (Publication._Publication__articles self); [exact Hs|].
  unfold bind.
  pose proof (between_sound fuel (mk_call [] []) self w Hs) as Hb.
  destruct (Publication.get_articles_between E fuel (mk_call [] []) (self, w))
    as [[a| |] st']; exact Hb.
Qed.
(** every world a process can be in has a sound table *)
Lemma reachable_sound w : reachable E w -> lru_sound w.
Proof.
  induction 1 as [|self w _ IH|self w _ IH|fuel c self w _ IH|fuel self w _ IH
                  |self w _ IH|self w _ IH|ml c m self w _ IH].
  - apply lru_sound_fresh.
  - eapply lru_sound_same; [apply (Newsletter_info_lru (self, w))|exact IH].
  - eapply lru_sound_same; [apply (Publication_info_lru (self, w))|exact IH].
  - now apply between_sound.
  - now apply articles_sound.
  - eapply lru_sound_same; [apply (TopFeeds_ids_lru (self, w))|exact IH].
  - eapply lru_sound_same; [apply (TopFeeds_articles_lru (self, w))|exact IH].
  - eapply lru_sound_same; [apply (TopFeeds_fetch_articles_lru ml c m (self, w))|exact IH].
Qed.
End Invariant.

(** C5, as the code has it.  In every world a process can be in, a call of
    [get_articles_between], however its arguments are spelled, with both
    bounds set and [_to >= _from] returns
    the empty list, raises nothing and makes no request.  The error line is
    printed when the call is not answered from the table; a call that is
    answered from the table prints nothing. *)
Theorem invalid_interval_empty (E : Env) fuel (c : call) F T self w :
  bind_args c = inr (Some F, Some T) ->
  dt_ge T F = true ->
  reachable E w ->
  let r := Publication.get_articles_between E fuel c (self, w) in
  fst r = Ok []
  /\ requests (snd (snd r)) = requests w
  /\ stdout (snd (snd r)) =
       match lru_get (make_key (Publication.ident self) c) (lru w) with
       | None => stdout w ++ [Publication.error_line]
       | Some _ => stdout w
       end.
Proof.
  intros Hc Hge Hs. apply reachable_sound in Hs.
  rewrite dt_ge_lt in Hge. apply negb_true_iff in Hge. cbn zeta.
  destruct (lru_get (make_key (Publication.ident self) c) (lru w)) as [v|] eqn:Hk.
  - rewrite (between_hit E _ _ _ _ _ Hk). simpl.
    apply lru_get_In in Hk. rewrite (Hs _ _ _ _ _ Hk Hc Hge). auto.
  - rewrite (between_miss E _ _ _ _ _ _ Hk Hc).
    rewrite (body_invalid E fuel (Some F) T self w Hge). simpl. auto.
Qed.

Section Select.
Context (E : Env).

Lemma select_between_filter T F l w sel w' :
  select_between T F l w = (Ok sel, w') ->
  sel = List.filter (fun a => in_window T F (heap w a)) l.
Proof.
  revert sel. induction l as [|a l IH]; intros sel.
  - intros [= <- _]. reflexivity.
  - simpl. unfold in_window at 1.
    destruct (published_at (heap w a)) as [p|]; [|discriminate].
    intros H. apply bind_inv in H as (x & w1 & Hx & Hr).
    injection Hr as <- <-.
    pose proof (select_between_same T F l w) as Hw. rewrite Hx in Hw.
    simpl in Hw. subst w1. rewrite (IH x Hx).
    destruct (dt_le T p && dt_le p F); reflexivity.
Qed.

Lemma select_between_total T F l w :
  Forall (fun a => published_at (heap w a) <> None) l ->
  select_between T F l w
    = (Ok (List.filter (fun a => in_window T F (heap w a)) l), w).
Proof.
  induction 1 as [|a l Ha _ IH]; [reflexivity|].
  simpl. unfold in_window at 1.
  destruct (published_at (heap w a)) as [p|]; [|congruence].
  erewrite bind_Ok by exact IH. unfold ret.
  destruct (dt_le T p && dt_le p F); reflexivity.
Qed.

Lemma in_window_spec T F a :
  in_window T F a = true ->
  exists p, published_at a = Some p /\ dt_le T p = true /\ dt_le p F = true.
Proof.
  unfold in_window. destruct (published_at a) as [p|]; [|discriminate].
  intros H. apply andb_true_iff in H. eauto.
Qed.

(** the body on an interval [_to < _from]: what a returned list is *)
Lemma body_valid_inv fuel F T self w l st' :
  dt_lt T F = true ->
  Publication.get_articles_between_body E fuel (Some F) (Some T) (self, w)
    = (Ok l, st') ->
  exists merged,
    l = List.filter (fun a => in_window T F (heap (snd st') a)) merged
    /\ fst st' = Publication.set_articles (Some l) self.
Proof.
  intros Hlt. unfold Publication.get_articles_between_body.
  unfold bind at 1. unfold ret at 1. unfold bind at 1. unfold get_self at 1.
  cbn [fst snd]. rewrite Hlt. intros H.
  apply bind_inv in H as (p & [s1 w1] & Hp & H).
  apply bind_inv in H as (merged & [s2 w2] & Hm & H).
  apply bind_inv in H as ([] & [s3 w3] & Hf & H).
  apply bind_inv in H as (sel & [s4 w4] & Hs & H).
  apply bind_inv in H as ([] & [s5 w5] & Hset & H).
  injection H as <- <-. injection Hset as <- <-.
  unfold lift in Hp, Hm, Hf, Hs. cbn [fst snd] in *.
  injection Hp as _ <- _. injection Hm as _ <- _. injection Hf as _ <- _.
  destruct (select_between T F merged w3) as [o w4'] eqn:Hsel.
  cbn [fst snd] in Hs. injection Hs as -> <- <-.
  pose proof (select_between_same T F merged w3) as Hw. rewrite Hsel in Hw.
  simpl in Hw. subst w4'.
  exists merged. split; [|reflexivity].
  cbn [snd]. now apply select_between_filter in Hsel.
Qed.
End Select.

(** C1, as the code has it.  A call of [get_articles_between], however its
    arguments are spelled, with both bounds set and [_to < _from], that
    returns a list: when it is not
    answered from the table, every handle of the list has its
    [published_at] set, with [_to <= published_at <= _from], and the list
    is the cached articles of the [Publication]; when it is answered from
    the table, the list is the memoized one and the [Publication] is left
    as it was. *)
Theorem window_respected (E : Env) fuel (c : call) F T self w l st' :
  bind_args c = inr (Some F, Some T) ->
  dt_lt T F = true ->
  Publication.get_articles_between E fuel c (self, w) = (Ok l, st') ->
  match lru_get (make_key (Publication.ident self) c) (lru w) with
  | None =>
      (forall a, In a l ->
         exists p, published_at (heap (snd st') a) = Some p
                   /\ dt_le T p = true /\ dt_le p F = true)
      /\ Publication._Publication__articles (fst st') = Some l
  | Some v => l = v /\ fst st' = self
  end.
Proof.
  intros Hc Hlt H.
  destruct (lru_get (make_key (Publication.ident self) c) (lru w)) as [v|] eqn:Hk.
  - rewrite (between_hit E _ _ _ _ _ Hk) in H. injection H as <- <-. auto.
  - rewrite (between_miss E _ _ _ _ _ _ Hk Hc) in H.
    destruct (Publication.get_articles_between_body E fuel (Some F) (Some T) (self, w))
      as [[x| |] st0] eqn:Hb; try discriminate.
    injection H as <- <-.
    apply (body_valid_inv E _ _ _ _ _ _ _ Hlt) in Hb as (merged & Hl & Hs).
    cbn [fst snd]. split.
    + intros a Ha. rewrite Hl in Ha. apply filter_In in Ha as [_ Ha].
      apply in_window_spec in Ha. exact Ha.
    + now rewrite Hs.
Qed.

Section Unset.
Context (E : Env).

Lemma settled_requests _from w : requests (settled _from w) = requests w.
Proof. now destruct _from. Qed.

(** the body when [_to] is unset *)
Lemma body_unset fuel _from self w r ids :
  service E (requests w)
    (Publication.articles_path self (effective_from E _from w)) = inr r ->
  r !! "publication_articles" = Some (JList ids) ->
  let w1 := alloc ids
              (log_request
                 (Publication.articles_path self (effective_from E _from w))
                 (settled _from w)) in
  let refs := seq (next_obj w) (length ids) in
  Publication.get_articles_between_body E fuel _from None (self, w)
    = (match fst (bulk_fetch E refs None (heap w1)) with
       | None => Ok refs
       | Some e => Raise e
       end,
       (Publication.set_articles (Some refs) self,
        snd (fetch_articles E refs None w1))).
Proof.
  intros Hs Hr. cbn zeta.
  unfold Publication.get_articles_between_body, Publication.articles_from_ids.
  erewrite bind_Ok
    with (a := effective_from E _from w) (s' := (self, settled _from w))
    by (destruct _from; reflexivity).
  erewrite bind_Ok by reflexivity. cbn [fst].
  erewrite bind_Ok
    by (unfold lift, get_resp; cbn [fst snd];
        rewrite settled_requests, Hs; reflexivity).
  erewrite bind_Ok by (unfold getitem; rewrite Hr; reflexivity).
  erewrite bind_Ok by reflexivity.
  erewrite bind_Ok
    by (unfold lift; cbn [fst snd]; rewrite new_Articles_alloc; reflexivity).
  erewrite bind_Ok by reflexivity.
  assert (Hn : next_obj
      (log_request (Publication.articles_path self (effective_from E _from w))
         (settled _from w)) = next_obj w) by now destruct _from.
  rewrite Hn.
  unfold bind, lift, fetch_articles, ret. cbn [fst snd].
  destruct (fst (bulk_fetch E _ None _)); reflexivity.
Qed.
End Unset.

(** C7, as the code has it.  A call of [get_articles_between], however its
    arguments are spelled, with [_to] unset ([_from] standing for the time
    of the call when it is unset too),
    with a service that answers the page and a collaborator that raises
    nothing and leaves the identifiers alone: when the call is not answered
    from the table, it makes exactly one request, for the page at [_from],
    and returns one handle per identifier of that page, in the order of the
    page, none left out; that list is the cached articles of the
    [Publication], and the collaborator was called once, on it.  When the
    call is answered from the table it returns the memoized list and makes
    no request. *)
Theorem one_page_when_to_unset (E : Env) fuel (c : call) _from self w r ids :
  bind_args c = inr (_from, None) ->
  service E (requests w)
    (Publication.articles_path self (effective_from E _from w)) = inr r ->
  r !! "publication_articles" = Some (JList ids) ->
  (forall l kw h, fst (bulk_fetch E l kw h) = None) ->
  (forall l kw h a, article_id (snd (bulk_fetch E l kw h) a) = article_id (h a)) ->
  let res := Publication.get_articles_between E fuel c (self, w) in
  match lru_get (make_key (Publication.ident self) c) (lru w) with
  | None =>
      exists l,
        fst res = Ok l
        /\ requests (snd (snd res)) =
             requests w ++ [Publication.articles_path self (effective_from E _from w)]
        /\ ids_of (snd (snd res)) l = ids
        /\ Publication._Publication__articles (fst (snd res)) = Some l
        /\ delegated (snd (snd res)) = delegated w ++ [(l, None)]
  | Some v =>
      fst res = Ok v /\ requests (snd (snd res)) = requests w
  end.
Proof.
  intros Hc Hs Hr Hok Hid. cbn zeta.
  destruct (lru_get (make_key (Publication.ident self) c) (lru w)) as [v|] eqn:Hk.
  - rewrite (between_hit E _ _ _ _ _ Hk). auto.
  - rewrite (between_miss E _ _ _ _ _ _ Hk Hc).
    rewrite (body_unset E fuel _from self w r ids Hs Hr).
    rewrite Hok. cbn [fst snd]. eexists. split; [reflexivity|].
    unfold fetch_articles. rewrite Hok. cbn [fst snd set_lru requests heap delegated].
    rewrite alloc_requests, alloc_delegated. cbn [log_request requests delegated].
    rewrite settled_requests.
    split; [reflexivity|]. split; [|split; [reflexivity|]].
    + unfold ids_of. cbn [heap].
      erewrite map_ext by (intros a; apply Hid).
      assert (Hn : next_obj w = next_obj
        (log_request (Publication.articles_path self (effective_from E _from w))
           (settled _from w))) by now destruct _from.
      rewrite Hn. apply alloc_ids.
    + now destruct _from.
Qed.

(** ** The order of datetimes *)

Lemma tuple_cmp_opp a b : tuple_cmp b a = CompOpp (tuple_cmp a b).
Proof.
  revert b. induction a as [|x a IH]; intros [|y b]; simpl; try reflexivity.
  rewrite (Z.compare_antisym x y).
  destruct (x ?= y)%Z; simpl; auto.
Qed.

Lemma tuple_cmp_lt_trans a b c :
  tuple_cmp a b = Lt -> tuple_cmp b c = Lt -> tuple_cmp a c = Lt.
Proof.
  revert b c. induction a as [|x a IH]; intros [|y b] [|z c]; simpl;
    try discriminate; try reflexivity.
  destruct (Z.compare_spec x y), (Z.compare_spec y z); try discriminate;
    intros H1 H2; subst.
  - rewrite Z.compare_refl. eauto.
  - now apply Z.compare_lt_iff in H0 as ->.
  - now apply Z.compare_lt_iff in H as ->.
  - assert (Hxz : (x < z)%Z) by lia. now apply Z.compare_lt_iff in Hxz as ->.
Qed.

Lemma tuple_cmp_eq_lt a b c :
  tuple_cmp a b = Eq -> tuple_cmp b c = Lt -> tuple_cmp a c = Lt.
Proof.
  revert b c. induction a as [|x a IH]; intros [|y b] [|z c]; simpl;
    try discriminate; try reflexivity.
  destruct (Z.compare_spec x y); try discriminate. subst.
  destruct (y ?= z)%Z; eauto.
Qed.

Lemma tuple_cmp_refl a : tuple_cmp a a = Eq.
Proof. induction a as [|x a IH]; simpl; [reflexivity|]. now rewrite Z.compare_refl. Qed.

Lemma dt_lt_trans a b c : dt_lt a b = true -> dt_lt b c = true -> dt_lt a c = true.
Proof.
  unfold dt_lt, _cmp.
  destruct (tuple_cmp (dt_tuple a) (dt_tuple b)) eqn:H1; try discriminate.
  destruct (tuple_cmp (dt_tuple b) (dt_tuple c)) eqn:H2; try discriminate.
  now rewrite (tuple_cmp_lt_trans _ _ _ H1 H2).
Qed.

Lemma dt_lt_irrefl a : dt_lt a a = false.
Proof. unfold dt_lt, _cmp. now rewrite tuple_cmp_refl. Qed.

(** [a <= b] and [b < c] give [a < c] *)
Lemma dt_le_lt_trans a b c : dt_le a b = true -> dt_lt b c = true -> dt_lt a c = true.
Proof.
  unfold dt_le, dt_lt, _cmp.
  destruct (tuple_cmp (dt_tuple a) (dt_tuple b)) eqn:H1; try discriminate;
    destruct (tuple_cmp (dt_tuple b) (dt_tuple c)) eqn:H2; try discriminate;
    intros _ _.
  - now rewrite (tuple_cmp_eq_lt _ _ _ H1 H2).
  - now rewrite (tuple_cmp_lt_trans _ _ _ H1 H2).
Qed.

Lemma tuple_cmp_lt_eq a b c :
  tuple_cmp a b = Lt -> tuple_cmp b c = Eq -> tuple_cmp a c = Lt.
Proof.
  revert b c. induction a as [|x a IH]; intros [|y b] [|z c]; simpl;
    try discriminate; try reflexivity.
  destruct (Z.compare_spec y z); try discriminate. subst.
  destruct (x ?= _)%Z; intros; try discriminate; eauto.
Qed.

(** [a < b] and [b <= c] give [a < c] *)
Lemma dt_lt_le_trans a b c : dt_lt a b = true -> dt_le b c = true -> dt_lt a c = true.
Proof.
  unfold dt_le, dt_lt, _cmp.
  destruct (tuple_cmp (dt_tuple a) (dt_tuple b)) eqn:H1; try discriminate;
    destruct (tuple_cmp (dt_tuple b) (dt_tuple c)) eqn:H2; try discriminate;
    intros _ _.
  - now rewrite (tuple_cmp_lt_eq _ _ _ H1 H2).
  - now rewrite (tuple_cmp_lt_trans _ _ _ H1 H2).
Qed.

Lemma dt_lt_le a b : dt_lt a b = true -> dt_le a b = true.
Proof. unfold dt_lt, dt_le. now destruct (_cmp a b). Qed.

Lemma dt_le_refl a : dt_le a a = true.
Proof. unfold dt_le, _cmp. now rewrite tuple_cmp_refl. Qed.

(** [a > b] is [b < a] *)
Lemma dt_gt_lt a b : dt_gt a b = dt_lt b a.
Proof.
  unfold dt_gt, dt_lt, _cmp. rewrite (tuple_cmp_opp (dt_tuple a) (dt_tuple b)).
  now destruct (tuple_cmp (dt_tuple a) (dt_tuple b)).
Qed.

(** ** The pages of a run *)

Section Pages.
Context (E : Env) (me : Publication.t).

Lemma page_answered c w ids t :
  answer E me (requests w) c = Some (ids, t) ->
  Publication.page E me c w
    = (Ok (seq (next_obj w) (length ids), t), page_world me (mk_page c ids t) w).
Proof.
  unfold answer, decode. intros H.
  destruct (service E (requests w) (Publication.articles_path me c))
    as [e|r] eqn:Hs; [discriminate|].
  destruct (r !! "publication_articles") as [j|] eqn:Hl; [|discriminate].
  destruct (r !! "to") as [[| | |s| |]|] eqn:Ht; try discriminate.
  destruct (sequence j) as [l|] eqn:Hq; [|discriminate].
  destruct (strptime E s) as [d|] eqn:Hp; [|discriminate].
  injection H as -> ->.
  unfold Publication.page, Publication.articles_from_ids.
  erewrite bind_Ok by (unfold get_resp; rewrite Hs; reflexivity).
  erewrite bind_Ok by (unfold getitem; rewrite Hl; reflexivity).
  erewrite bind_Ok by (unfold elements_of; rewrite Hq; reflexivity).
  erewrite bind_Ok by apply new_Articles_alloc.
  erewrite bind_Ok by (unfold getitem; rewrite Ht; reflexivity).
  erewrite bind_Ok by (unfold parse_to; rewrite Hp; reflexivity).
  unfold ret, page_world. cbn [page_ids cursor log_request next_obj].
  now rewrite length_rev.
Qed.

Lemma page_inv c w refs t w1 :
  Publication.page E me c w = (Ok (refs, t), w1) ->
  exists ids,
    answer E me (requests w) c = Some (ids, t)
    /\ refs = seq (next_obj w) (length ids)
    /\ w1 = page_world me (mk_page c ids t) w.
Proof.
  unfold Publication.page, Publication.articles_from_ids, answer, decode.
  intros H.
  destruct (service E (requests w) (Publication.articles_path me c))
    as [e|r] eqn:Hs.
  { unfold bind, get_resp in H. rewrite Hs in H. discriminate. }
  erewrite bind_Ok in H by (unfold get_resp; rewrite Hs; reflexivity).
  destruct (r !! "publication_articles") as [j|] eqn:Hl.
  2: { unfold bind, getitem in H. rewrite Hl in H. discriminate. }
  erewrite bind_Ok in H by (unfold getitem; rewrite Hl; reflexivity).
  destruct (sequence j) as [l|] eqn:Hq.
  2: { unfold bind, elements_of in H. rewrite Hq in H. discriminate. }
  erewrite bind_Ok in H by (unfold elements_of; rewrite Hq; reflexivity).
  erewrite bind_Ok in H by apply new_Articles_alloc.
  destruct (r !! "to") as [to|] eqn:Ht.
  2: { unfold bind, getitem in H. rewrite Ht in H. discriminate. }
  erewrite bind_Ok in H by (unfold getitem; rewrite Ht; reflexivity).
  destruct to as [| | |s| |]; try discriminate H.
  destruct (strptime E s) as [d|] eqn:Hp.
  2: { unfold bind, parse_to in H. rewrite Hp in H. discriminate. }
  erewrite bind_Ok in H by (unfold parse_to; rewrite Hp; reflexivity).
  unfold ret in H. injection H as H1 H2 H3. subst t.
  exists l. split; [reflexivity|]. split.
  - rewrite <- H1. cbn [log_request next_obj]. now rewrite length_rev.
  - rewrite <- H3. reflexivity.
Qed.

Lemma page_world_requests pg w :
  requests (page_world me pg w)
    = requests w ++ [Publication.articles_path me (cursor pg)].
Proof. unfold page_world. now rewrite alloc_requests. Qed.

Lemma page_world_next_obj pg w :
  next_obj (page_world me pg w) = (next_obj w + length (rev (page_ids pg)))%nat.
Proof. unfold page_world. now rewrite alloc_next_obj. Qed.

Lemma served_cons n h c pg rest :
  served E me n h c = Some (pg :: rest) ->
  exists n',
    n = S n'
    /\ answer E me h c = Some (page_ids pg, bound pg)
    /\ cursor pg = c
    /\ served E me n' (h ++ [Publication.articles_path me c]) (bound pg) = Some rest.
Proof.
  destruct n as [|n']; [discriminate|]. simpl.
  destruct (answer E me h c) as [[ids t]|]; [|discriminate].
  destruct (served E me n' _ t) as [l|] eqn:Hl; [|discriminate].
  intros [= <- <-]. exists n'. simpl. auto.
Qed.

Lemma served_length n h c pages :
  served E me n h c = Some pages -> length pages = n.
Proof.
  revert h c pages. induction n as [|n IH]; intros h c pages; simpl.
  - now intros [= <-].
  - destruct (answer E me h c) as [[ids t]|]; [|discriminate].
    destruct (served E me n _ t) as [l|] eqn:Hl; [|discriminate].
    intros [= <-]. simpl. f_equal. eauto.
Qed.

Lemma stops_at_cons T pg rest :
  stops_at T (pg :: rest) = true ->
  (rest = [] /\ dt_gt (bound pg) T = false)
  \/ (rest <> [] /\ dt_gt (bound pg) T = true /\ stops_at T rest = true).
Proof.
  simpl. destruct rest as [|pg' rest'].
  - rewrite dt_gt_le. intros ->. now left.
  - intros H. apply andb_true_iff in H. right. repeat split; try tauto. discriminate.
Qed.

Lemma paging_turn fuel T c acc :
  dt_gt c T = true ->
  Publication.paging E (S fuel) me T c acc = phase E me fuel T c acc.
Proof. intros H. simpl. now rewrite H. Qed.

Lemma paging_stop fuel T c acc w :
  dt_gt c T = false ->
  Publication.paging E fuel me T c acc w = (Ok acc, w).
Proof. intros H. destruct fuel; simpl; now rewrite H. Qed.

(** the run on the pages it is served, with enough fuel *)
Lemma phase_served T pages :
  forall fuel c acc w,
    served E me (length pages) (requests w) c = Some pages ->
    stops_at T pages = true ->
    (length pages <= S fuel)%nat ->
    phase E me fuel T c acc w
      = (Ok (acc ++ seq (next_obj w) (length (merged_ids pages))),
         pages_world me pages w).
Proof.
  induction pages as [|pg rest IH]; intros fuel c acc w Hs Hstop Hfuel;
    [discriminate|].
  apply served_cons in Hs as (n' & Hn & Ha & Hc & Hrest).
  injection Hn as <-.
  unfold phase. destruct pg as [c' ids t]. cbn [page_ids bound cursor] in *.
  subst c'. erewrite bind_Ok by (apply page_answered; exact Ha).
  cbn [fst snd].
  apply stops_at_cons in Hstop as [[-> Hgt]|(Hne & Hgt & Hstop)];
    cbn [bound] in Hgt.
  - rewrite paging_stop by exact Hgt. simpl. now rewrite app_nil_r, length_rev.
  - destruct fuel as [|fuel].
    { destruct rest; [congruence|simpl in Hfuel; lia]. }
    rewrite paging_turn by exact Hgt.
    rewrite (IH fuel t).
    + cbn [merged_ids flat_map pages_world page_ids].
      rewrite length_app, length_rev, seq_app, app_assoc.
      now rewrite page_world_next_obj, length_rev.
    + now rewrite page_world_requests.
    + exact Hstop.
    + simpl in Hfuel. lia.
Qed.

(** with less fuel than the run has turns, the fuel runs out *)
Lemma phase_out_of_fuel T pages :
  forall fuel c acc w,
    served E me (length pages) (requests w) c = Some pages ->
    stops_at T pages = true ->
    (S fuel < length pages)%nat ->
    fst (phase E me fuel T c acc w) = OutOfFuel.
Proof.
  induction pages as [|pg rest IH]; intros fuel c acc w Hs Hstop Hfuel;
    [discriminate|].
  apply served_cons in Hs as (n' & Hn & Ha & Hc & Hrest).
  injection Hn as <-.
  unfold phase. destruct pg as [c' ids t]. cbn [page_ids bound cursor] in *.
  subst c'. erewrite bind_Ok by (apply page_answered; exact Ha).
  cbn [fst snd].
  apply stops_at_cons in Hstop as [[-> Hgt]|(Hne & Hgt & Hstop)];
    cbn [bound] in Hgt.
  - simpl in Hfuel. lia.
  - destruct fuel as [|fuel].
    + simpl. now rewrite Hgt.
    + rewrite paging_turn by exact Hgt.
      apply (IH fuel t).
      * now rewrite page_world_requests.
      * exact Hstop.
      * simpl in Hfuel. lia.
Qed.

(** a run that returns was served pages that stop it *)
Lemma phase_inv T :
  forall fuel c acc w merged w',
    phase E me fuel T c acc w = (Ok merged, w') ->
    exists pages,
      served E me (length pages) (requests w) c = Some pages
      /\ stops_at T pages = true
      /\ (length pages <= S fuel)%nat
      /\ merged = acc ++ seq (next_obj w) (length (merged_ids pages))
      /\ w' = pages_world me pages w.
Proof.
  induction fuel as [|fuel IH]; intros c acc w merged w' H;
    unfold phase in H; apply bind_inv in H as ([refs t] & w1 & Hp & H);
    apply page_inv in Hp as (ids & Ha & -> & ->); cbn [fst snd] in H.
  - simpl in H. destruct (dt_gt t T) eqn:Hgt; [discriminate|].
    injection H as <- <-. exists [mk_page c ids t].
    simpl. rewrite Ha. rewrite dt_gt_le in Hgt. apply negb_false_iff in Hgt.
    rewrite app_nil_r, length_rev. repeat split; auto.
  - destruct (dt_gt t T) eqn:Hgt.
    + rewrite paging_turn in H by exact Hgt.
      apply IH in H as (pages & Hs & Hstop & Hlen & -> & ->).
      exists (mk_page c ids t :: pages).
      rewrite page_world_requests in Hs. cbn [cursor] in Hs.
      simpl served. rewrite Ha, Hs.
      split; [reflexivity|]. split.
      { simpl. destruct pages; [discriminate|]. cbn [bound]. now rewrite Hgt. }
      split; [simpl; lia|]. split; [|reflexivity].
      cbn [merged_ids flat_map page_ids].
      rewrite length_app, length_rev, seq_app, app_assoc.
      now rewrite page_world_next_obj, length_rev.
    + rewrite paging_stop in H by exact Hgt.
      injection H as <- <-. exists [mk_page c ids t].
      simpl. rewrite Ha. rewrite dt_gt_le in Hgt. apply negb_false_iff in Hgt.
      rewrite app_nil_r, length_rev. repeat split; auto. lia.
Qed.

Lemma paging_phase_phase fuel F T :
  paging_phase E me fuel F T = phase E me fuel T F [].
Proof. reflexivity. Qed.
End Pages.

Section Merged.
Context (E : Env) (me : Publication.t).

Lemma pages_world_requests pages w :
  requests (pages_world me pages w)
    = requests w ++ map (fun pg => Publication.articles_path me (cursor pg)) pages.
Proof.
  revert w. induction pages as [|pg rest IH]; intros w; simpl.
  - now rewrite app_nil_r.
  - rewrite IH, page_world_requests. now rewrite <- app_assoc.
Qed.

Lemma pages_world_next_obj pages w :
  next_obj (pages_world me pages w)
    = (next_obj w + length (merged_ids pages))%nat.
Proof.
  revert w. induction pages as [|pg rest IH]; intros w; simpl; [lia|].
  rewrite IH, page_world_next_obj, length_app. lia.
Qed.

Lemma pages_world_heap_old pages w a :
  (a < next_obj w)%nat -> heap (pages_world me pages w) a = heap w a.
Proof.
  revert w. induction pages as [|pg rest IH]; intros w Ha; [reflexivity|].
  simpl. rewrite IH.
  - unfold page_world. now rewrite alloc_heap_old.
  - rewrite page_world_next_obj. lia.
Qed.

(** the handles of the merged list carry the identifiers of the pages,
    every page reversed *)
Lemma pages_world_ids pages w :
  ids_of (pages_world me pages w)
         (seq (next_obj w) (length (merged_ids pages)))
    = merged_ids pages.
Proof.
  revert w. induction pages as [|pg rest IH]; intros w; [reflexivity|].
  cbn [merged_ids flat_map pages_world].
  rewrite length_app, seq_app. unfold ids_of in *. rewrite map_app. f_equal.
  - erewrite map_ext_in.
    + apply (alloc_ids (rev (page_ids pg))
               (log_request (Publication.articles_path me (cursor pg)) w)).
    + intros a Ha. apply in_seq in Ha. cbn beta.
      rewrite pages_world_heap_old; [reflexivity|].
      rewrite page_world_next_obj. lia.
  - fold (merged_ids rest).
    rewrite <- (page_world_next_obj me pg w) at 1. apply IH.
Qed.

(** the first page whose bound is not above [T], among pages served *)
Lemma first_stop T served_n :
  forall n h c,
    served E me n h c = Some served_n ->
    Exists (fun pg => dt_le (bound pg) T = true) served_n ->
    exists pages rest,
      served_n = pages ++ rest
      /\ stops_at T pages = true
      /\ served E me (length pages) h c = Some pages.
Proof.
  induction served_n as [|pg tl IH]; intros n h c Hs Hex.
  - inversion Hex.
  - pose proof Hs as Hs0.
    apply served_cons in Hs as (n' & -> & Ha & Hc & Htl).
    destruct (dt_le (bound pg) T) eqn:Hle.
    + exists [pg], tl. repeat split; [simpl; exact Hle|].
      simpl. rewrite Ha. destruct pg; simpl in *. now subst.
    + apply Exists_cons in Hex as [Hex|Hex]; [congruence|].
      destruct (IH _ _ _ Htl Hex) as (pages & rest & -> & Hstop & Hp).
      exists (pg :: pages), rest. repeat split.
      * simpl. destruct pages; [discriminate|].
        rewrite dt_gt_le, Hle. exact Hstop.
      * simpl. rewrite Ha, Hp. destruct pg; simpl in *. now subst.
Qed.

(** every request after the first is made at the bound of the page
    before *)
Lemma served_cursors pages :
  forall n h c,
    pages <> [] ->
    served E me n h c = Some pages ->
    map cursor pages = c :: removelast (map bound pages).
Proof.
  induction pages as [|pg tl IH]; intros n h c Hne Hs; [congruence|].
  apply served_cons in Hs as (n' & -> & Ha & Hc & Htl).
  simpl. f_equal; [exact Hc|].
  destruct tl as [|pg' tl']; [reflexivity|].
  rewrite (IH _ _ _ ltac:(discriminate) Htl). reflexivity.
Qed.

Lemma pages_world_delegated pages w :
  delegated (pages_world me pages w) = delegated w.
Proof.
  revert w. induction pages as [|pg rest IH]; intros w; [reflexivity|].
  simpl. rewrite IH. unfold page_world. now rewrite alloc_delegated.
Qed.

Lemma In_merged_ids pages pg i :
  In pg pages -> In i (page_ids pg) -> In i (merged_ids pages).
Proof.
  intros Hp Hi. apply in_flat_map. exists pg. split; [exact Hp|].
  apply in_rev in Hi. exact Hi.
Qed.

(** in a run of pages within their windows, every identifier was published
    before the cursor of the run: strictly before it, or not after it when
    the windows hold their upper end *)
Lemma windows_below upper stamp pages :
  forall n h c,
    served E me n h c = Some pages ->
    Forall decreasing pages ->
    Forall (windowed upper stamp) pages ->
    forall i, In i (merged_ids pages) ->
      (if upper then dt_le (stamp i) c else dt_lt (stamp i) c) = true.
Proof.
  induction pages as [|pg tl IH]; intros n h c Hs Hd Hw i Hi; [destruct Hi|].
  apply served_cons in Hs as (n' & -> & Ha & Hc & Htl).
  inversion Hd as [|? ? Hdec Hd']; subst.
  inversion Hw as [|? ? Hin Hw']; subst.
  cbn [merged_ids flat_map] in Hi. apply in_app_or in Hi as [Hi|Hi].
  - apply in_rev in Hi. apply Hin in Hi. destruct upper; tauto.
  - pose proof (IH _ _ _ Htl Hd' Hw' i Hi) as Hb. unfold decreasing in Hdec.
    destruct upper.
    + apply dt_lt_le. eapply dt_le_lt_trans; eassumption.
    + eapply dt_lt_trans; eassumption.
Qed.

(** pages within windows that do not overlap share no identifier *)
Lemma windows_disjoint upper stamp pages :
  forall n h c,
    served E me n h c = Some pages ->
    Forall decreasing pages ->
    Forall (windowed upper stamp) pages ->
    ForallOrdPairs disjoint_pages pages.
Proof.
  induction pages as [|pg tl IH]; intros n h c Hs Hd Hw; [constructor|].
  apply served_cons in Hs as (n' & -> & Ha & Hc & Htl).
  inversion Hd as [|? ? Hdec Hd']; subst.
  inversion Hw as [|? ? Hin Hw']; subst.
  constructor; [|eapply IH; eassumption].
  apply List.Forall_forall. intros pg' Hpg' i Hi Hi'.
  pose proof (windows_below upper stamp tl _ _ _ Htl Hd' Hw' i
                (In_merged_ids _ _ _ Hpg' Hi')) as Hb.
  apply Hin in Hi. destruct upper; destruct Hi as [Hlo _].
  - pose proof (dt_lt_le_trans _ _ _ Hlo Hb) as Habs.
    now rewrite dt_lt_irrefl in Habs.
  - pose proof (dt_le_lt_trans _ _ _ Hlo Hb) as Habs.
    now rewrite dt_lt_irrefl in Habs.
Qed.

(** pages that share no identifier and list none twice merge into a list
    that holds none twice *)
Lemma merged_NoDup pages :
  Forall (fun pg => List.NoDup (page_ids pg)) pages ->
  ForallOrdPairs disjoint_pages pages ->
  List.NoDup (merged_ids pages).
Proof.
  induction pages as [|pg tl IH]; intros Hn Hd; [constructor|].
  inversion Hn as [|? ? Hnd Hn']; subst.
  inversion Hd as [|? ? Hdis Hd']; subst.
  cbn [merged_ids flat_map]. apply List.NoDup_app.
  - now apply List.NoDup_rev.
  - now apply IH.
  - intros i Hi Hi'. apply in_rev in Hi.
    apply in_flat_map in Hi' as (pg' & Hpg' & Hi'). apply in_rev in Hi'.
    rewrite List.Forall_forall in Hdis. exact (Hdis pg' Hpg' i Hi Hi').
Qed.
End Merged.

Section Valid.
Context (E : Env).

Lemma fetch_articles_requests l kw w :
  requests (snd (fetch_articles E l kw w)) = requests w.
Proof. unfold fetch_articles. destruct (fst (bulk_fetch E l kw (heap w))); reflexivity. Qed.

Lemma fetch_articles_delegated l kw w :
  delegated (snd (fetch_articles E l kw w)) = delegated w ++ [(l, kw)].
Proof. unfold fetch_articles. destruct (fst (bulk_fetch E l kw (heap w))); reflexivity. Qed.

Lemma fetch_articles_heap l kw w :
  heap (snd (fetch_articles E l kw w)) = snd (bulk_fetch E l kw (heap w)).
Proof. unfold fetch_articles. destruct (fst (bulk_fetch E l kw (heap w))); reflexivity. Qed.

Lemma fetch_articles_next_obj l kw w :
  next_obj (snd (fetch_articles E l kw w)) = next_obj w.
Proof. unfold fetch_articles. destruct (fst (bulk_fetch E l kw (heap w))); reflexivity. Qed.

(** the selection is a loop over a list: it needs no fuel *)
Lemma select_between_returns T F l w : fst (select_between T F l w) <> OutOfFuel.
Proof.
  induction l as [|a l IH]; simpl; [discriminate|].
  destruct (published_at (heap w a)); [|discriminate].
  unfold bind. destruct (select_between T F l w) as [[x| |] w1]; simpl in *;
    congruence.
Qed.

(** the body on an interval [_to < _from], when the run of the pages
    returns, the collaborator raises nothing and leaves no handle of the
    merged list without [published_at] *)
Lemma body_valid_run fuel F T self w merged w2 :
  dt_lt T F = true ->
  paging_phase E self fuel F T w = (Ok merged, w2) ->
  fst (bulk_fetch E merged None (heap w2)) = None ->
  let w3 := snd (fetch_articles E merged None w2) in
  Forall (fun a => published_at (heap w3 a) <> None) merged ->
  Publication.get_articles_between_body E fuel (Some F) (Some T) (self, w)
    = (Ok (List.filter (fun a => in_window T F (heap w3 a)) merged),
       (Publication.set_articles
          (Some (List.filter (fun a => in_window T F (heap w3 a)) merged)) self,
        w3)).
Proof.
  intros Hlt Hrun Hok w3 Hset.
  unfold Publication.get_articles_between_body.
  erewrite bind_Ok by reflexivity.
  erewrite bind_Ok by reflexivity. cbn [fst]. rewrite Hlt.
  unfold paging_phase in Hrun. apply bind_inv in Hrun as (p & w1 & Hp & Hrun).
  erewrite bind_Ok by (unfold lift; cbn [fst snd]; rewrite Hp; reflexivity).
  erewrite bind_Ok by (unfold lift; cbn [fst snd]; rewrite Hrun; reflexivity).
  erewrite bind_Ok with (s' := (self, w3))
    by (unfold lift, w3, fetch_articles; cbn [fst snd]; rewrite Hok; reflexivity).
  erewrite bind_Ok
    by (unfold lift; cbn [fst snd];
        rewrite select_between_total by exact Hset; reflexivity).
  erewrite bind_Ok by reflexivity. reflexivity.
Qed.

(** the body on an interval [_to < _from], when the run of the pages
    returns: the loop is over, what follows needs no fuel, and the world is
    left as the collaborator leaves it *)
Lemma body_valid_world fuel F T self w merged w2 :
  dt_lt T F = true ->
  paging_phase E self fuel F T w = (Ok merged, w2) ->
  fst (Publication.get_articles_between_body E fuel (Some F) (Some T) (self, w))
    <> OutOfFuel
  /\ snd (snd (Publication.get_articles_between_body E fuel (Some F) (Some T)
                 (self, w)))
     = snd (fetch_articles E merged None w2).
Proof.
  intros Hlt Hrun.
  unfold Publication.get_articles_between_body.
  erewrite bind_Ok by reflexivity.
  erewrite bind_Ok by reflexivity. cbn [fst]. rewrite Hlt.
  unfold paging_phase in Hrun. apply bind_inv in Hrun as (p & w1 & Hp & Hrun).
  erewrite bind_Ok by (unfold lift; cbn [fst snd]; rewrite Hp; reflexivity).
  erewrite bind_Ok by (unfold lift; cbn [fst snd]; rewrite Hrun; reflexivity).
  unfold bind, lift, setattr, ret. cbn [fst snd].
  destruct (fetch_articles E merged None w2) as [[[]|e|] w3] eqn:Hf;
    cbn [fst snd].
  - pose proof (select_between_same T F merged w3) as Hsame.
    pose proof (select_between_returns T F merged w3) as Hret.
    destruct (select_between T F merged w3) as [[x| |] w4];
      cbn [fst snd] in *; subst; split; congruence.
  - split; [discriminate|reflexivity].
  - unfold fetch_articles in Hf.
    destruct (fst (bulk_fetch E merged None (heap w2))); discriminate.
Qed.

(** the body when the fuel runs out in the loop *)
Lemma body_out_of_fuel fuel F T self w :
  dt_lt T F = true ->
  fst (paging_phase E self fuel F T w) = OutOfFuel ->
  fst (Publication.get_articles_between_body E fuel (Some F) (Some T) (self, w))
    = OutOfFuel.
Proof.
  intros Hlt Hrun.
  unfold Publication.get_articles_between_body.
  erewrite bind_Ok by reflexivity.
  erewrite bind_Ok by reflexivity. cbn [fst]. rewrite Hlt.
  unfold paging_phase in Hrun. unfold bind in *. unfold lift. cbn [fst snd].
  destruct (Publication.page E self F w) as [[p| |] w1]; cbn [fst snd] in *;
    try discriminate; [|reflexivity].
  destruct (Publication.paging E fuel self T (snd p) (fst p) w1) as [[x| |] w2];
    cbn [fst snd] in *; try discriminate. reflexivity.
Qed.

(** a call on an interval [_to < _from] that the table does not answer
    returns, when the pages served stop the loop, the fuel covers its turns,
    and the collaborator raises nothing and leaves no handle of the merged
    list without [published_at] *)
Lemma valid_call_returns fuel c F T self w pages :
  bind_args c = inr (Some F, Some T) ->
  dt_lt T F = true ->
  lru_get (make_key (Publication.ident self) c) (lru w) = None ->
  served E self (length pages) (requests w) F = Some pages ->
  stops_at T pages = true ->
  (length pages <= S fuel)%nat ->
  let merged := seq (next_obj w) (length (merged_ids pages)) in
  let w2 := pages_world self pages w in
  fst (bulk_fetch E merged None (heap w2)) = None ->
  Forall (fun a => published_at (snd (bulk_fetch E merged None (heap w2)) a) <> None)
         merged ->
  exists l st',
    Publication.get_articles_between E fuel c (self, w) = (Ok l, st').
Proof.
  intros Hc Hlt Hk Hs Hstop Hfuel merged w2 Hok Hset.
  rewrite (between_miss E _ _ _ _ _ _ Hk Hc).
  erewrite body_valid_run; [eauto|exact Hlt| |exact Hok|].
  - rewrite paging_phase_phase.
    now rewrite (phase_served E self T pages fuel F [] w Hs Hstop Hfuel).
  - unfold fetch_articles. destruct (fst (bulk_fetch E merged None (heap w2)));
      exact Hset.
Qed.

(** a call on an interval [_to < _from] that the table does not answer,
    when the pages served stop the loop and the fuel covers its turns: the
    loop is over, the requests are those of the pages, and the collaborator
    is handed the merged list, whatever it does with it *)
Lemma valid_call_world fuel c F T self w pages :
  bind_args c = inr (Some F, Some T) ->
  dt_lt T F = true ->
  lru_get (make_key (Publication.ident self) c) (lru w) = None ->
  served E self (length pages) (requests w) F = Some pages ->
  stops_at T pages = true ->
  (length pages <= S fuel)%nat ->
  let merged := seq (next_obj w) (length (merged_ids pages)) in
  let res := Publication.get_articles_between E fuel c (self, w) in
  fst res <> OutOfFuel
  /\ requests (snd (snd res))
     = requests w ++ map (fun pg => Publication.articles_path self (cursor pg)) pages
  /\ delegated (snd (snd res)) = delegated w ++ [(merged, None)]
  /\ heap (snd (snd res))
     = snd (bulk_fetch E merged None (heap (pages_world self pages w)))
  /\ next_obj (snd (snd res)) = (next_obj w + length (merged_ids pages))%nat.
Proof.
  intros Hc Hlt Hk Hs Hstop Hfuel merged. cbn zeta.
  assert (Hrun : paging_phase E self fuel F T w
                 = (Ok merged, pages_world self pages w)).
  { rewrite paging_phase_phase.
    now rewrite (phase_served E self T pages fuel F [] w Hs Hstop Hfuel). }
  destruct (body_valid_world _ _ _ _ _ _ _ Hlt Hrun) as [Hne Hw].
  rewrite (between_miss E _ _ _ _ _ _ Hk Hc).
  destruct (Publication.get_articles_between_body E fuel (Some F) (Some T) (self, w))
    as [[x| |] [s' w']]; cbn [fst snd] in *; [| |congruence];
    subst w'; (split; [discriminate|]);
    cbn [set_lru requests delegated heap next_obj];
    rewrite fetch_articles_requests, fetch_articles_delegated,
      fetch_articles_heap, fetch_articles_next_obj,
      pages_world_requests, pages_world_delegated, pages_world_next_obj;
    auto.
Qed.

(** and with less fuel than the loop has turns, it is the fuel that runs
    out *)
Lemma valid_call_out_of_fuel fuel c F T self w pages :
  bind_args c = inr (Some F, Some T) ->
  dt_lt T F = true ->
  lru_get (make_key (Publication.ident self) c) (lru w) = None ->
  served E self (length pages) (requests w) F = Some pages ->
  stops_at T pages = true ->
  (S fuel < length pages)%nat ->
  fst (Publication.get_articles_between E fuel c (self, w)) = OutOfFuel.
Proof.
  intros Hc Hlt Hk Hs Hstop Hfuel.
  rewrite (between_miss E _ _ _ _ _ _ Hk Hc).
  pose proof (body_out_of_fuel fuel F T self w Hlt) as Hb.
  rewrite paging_phase_phase in Hb.
  specialize (Hb (phase_out_of_fuel E self T pages fuel F [] w Hs Hstop Hfuel)).
  destruct (Publication.get_articles_between_body E fuel (Some F) (Some T) (self, w))
    as [[x| |] st']; cbn [fst] in *; congruence.
Qed.
End Valid.

(** C3.  A call of [get_articles_between], however its arguments are
    spelled, with both bounds set, [_to < _from], that the table does not
    answer: when, among the pages the service hands out from the cursor
    [_from] on, one reports a bound that is not above [_to], the loop of the
    call comes to an end.  With [pages] the pages up to the first such one,
    every earlier page has a bound above [_to]; the requests of the call are
    those of [pages] and no other, the first at [_from] and each next one at
    the bound the page before reported; as soon as the fuel covers the
    turns of the loop, one per page after the first, the call goes on past
    the loop, hands one handle per identifier listed to the collaborator,
    and ends, by returning or by raising what the collaborator or the
    selection raises; with less fuel it is the fuel that runs out.  That
    the bounds decrease plays no part. *)
Theorem paging_terminates (E : Env) (c : call) F T self w n served_n :
  bind_args c = inr (Some F, Some T) ->
  dt_lt T F = true ->
  lru_get (make_key (Publication.ident self) c) (lru w) = None ->
  served E self n (requests w) F = Some served_n ->
  Exists (fun pg => dt_le (bound pg) T = true) served_n ->
  exists pages rest,
    served_n = pages ++ rest
    /\ stops_at T pages = true
    /\ map cursor pages = F :: removelast (map bound pages)
    /\ (forall fuel, (length pages <= S fuel)%nat ->
          let res := Publication.get_articles_between E fuel c (self, w) in
          fst res <> OutOfFuel
          /\ requests (snd (snd res))
             = requests w
               ++ map (fun pg => Publication.articles_path self (cursor pg)) pages
          /\ delegated (snd (snd res))
             = delegated w ++ [(seq (next_obj w) (length (merged_ids pages)), None)]
          /\ next_obj (snd (snd res))
             = (next_obj w + length (merged_ids pages))%nat)
    /\ (forall fuel, (S fuel < length pages)%nat ->
          fst (Publication.get_articles_between E fuel c (self, w)) = OutOfFuel).
Proof.
  intros Hc Hlt Hk Hs Hex.
  destruct (first_stop E self T served_n _ _ _ Hs Hex)
    as (pages & rest & -> & Hstop & Hp).
  exists pages, rest. split; [reflexivity|]. split; [exact Hstop|]. split.
  { eapply served_cursors; [|exact Hp]. intros ->. discriminate. }
  split.
  - intros fuel Hfuel.
    destruct (valid_call_world E fuel c F T self w pages Hc Hlt Hk Hp Hstop Hfuel)
      as (Hne & Hr & Hd & _ & Hn).
    cbn zeta. auto.
  - intros fuel Hfuel.
    now apply (valid_call_out_of_fuel E fuel c F T self w pages).
Qed.

(** C4.  A call of [get_articles_between], however its arguments are
    spelled, with both bounds set, [_to < _from], that the table does not
    answer, and the pages of its run: the pages the service hands out from
    [_from] on, up to the first whose bound is not above [_to].  When every
    page of the run reports a bound strictly below the cursor it was asked
    at, and the windows of the pages do not overlap (every page lists only
    identifiers published inside its window, from its bound to its cursor,
    one end left out), the merged list the call hands to the collaborator
    holds the identifiers of the pages, every page reversed, the pages in
    the order of the requests, and no identifier is on two pages: the
    merged list holds no identifier of one page again in another.  When in
    addition no page lists an identifier twice, the merged list holds no
    identifier twice. *)
Theorem merged_NoDup_in_windows (E : Env) fuel (c : call) F T self w pages
    (upper : bool) (stamp : json -> datetime) :
  bind_args c = inr (Some F, Some T) ->
  dt_lt T F = true ->
  lru_get (make_key (Publication.ident self) c) (lru w) = None ->
  served E self (length pages) (requests w) F = Some pages ->
  stops_at T pages = true ->
  (length pages <= S fuel)%nat ->
  Forall decreasing pages ->
  Forall (windowed upper stamp) pages ->
  let merged := seq (next_obj w) (length (merged_ids pages)) in
  let w2 := pages_world self pages w in
  let res := Publication.get_articles_between E fuel c (self, w) in
  delegated (snd (snd res)) = delegated w ++ [(merged, None)]
  /\ heap (snd (snd res)) = snd (bulk_fetch E merged None (heap w2))
  /\ ids_of w2 merged = merged_ids pages
  /\ ForallOrdPairs disjoint_pages pages
  /\ (Forall (fun pg => List.NoDup (page_ids pg)) pages ->
      List.NoDup (ids_of w2 merged)).
Proof.
  intros Hc Hlt Hk Hs Hstop Hfuel Hd Hw. cbn zeta.
  destruct (valid_call_world E fuel c F T self w pages Hc Hlt Hk Hs Hstop Hfuel)
    as (_ & _ & Hdel & Hheap & _).
  pose proof (windows_disjoint E self upper stamp pages _ _ _ Hs Hd Hw) as Hdis.
  split; [exact Hdel|]. split; [exact Hheap|].
  split; [apply pages_world_ids|]. split; [exact Hdis|].
  intros Hn. rewrite pages_world_ids. now apply merged_NoDup.
Qed.

(** ** The scenario *)

Section Scenario.
Context (stamp : json -> option datetime).

Lemma stub_served :
  served (Stub.env stamp) Stub.pub 2 [] Stub.jan10 = Some [page1; page2].
Proof. vm_compute. reflexivity. Qed.

Lemma stub_phase fuel :
  paging_phase (Stub.env stamp) Stub.pub (S fuel) Stub.jan10 Stub.jan01 fresh_world
    = (Ok [0; 1; 2; 3; 4]%nat, pages_world Stub.pub [page1; page2] fresh_world).
Proof.
  rewrite paging_phase_phase.
  rewrite (phase_served _ _ Stub.jan01 [page1; page2]);
    [reflexivity|apply stub_served|reflexivity|simpl; lia].
Qed.

Lemma stub_requests :
  requests (stub_world stamp) = [Stub.path_jan10; Stub.path_jan05].
Proof. vm_compute. reflexivity. Qed.

Lemma stub_delegated :
  delegated (stub_world stamp) = [([0; 1; 2; 3; 4]%nat, None)].
Proof. vm_compute. reflexivity. Qed.
End Scenario.

(** C2, as the code has it.  With the stub of the scenario (page 1, asked
    at 2024-01-10, lists a, b, c and reports 2024-01-05; page 2, asked at
    2024-01-05, lists d, e and reports 2023-12-30), the call with
    [_from] 2024-01-10 and [_to] 2024-01-01, however the two are spelled,
    makes the two requests and no third one, hands the five handles to the
    collaborator at once, and returns the handles of c, b, a, e, d, in that
    order (every page reversed, the pages in the order of the requests),
    less those whose [published_at] is outside of the bounds. *)
Theorem two_page_scenario (stamp : json -> datetime) (fuel : nat) (c : call) :
  bind_args c = inr (Some Stub.jan10, Some Stub.jan01) ->
  let E := Stub.env (fun j => Some (stamp j)) in
  let res := Publication.get_articles_between E (S fuel) c
               (Stub.pub, fresh_world) in
  exists l,
    fst res = Ok l
    /\ ids_of (snd (snd res)) l
       = List.filter
           (fun j => dt_le Stub.jan01 (stamp j) && dt_le (stamp j) Stub.jan10)
           [JStr "c"; JStr "b"; JStr "a"; JStr "e"; JStr "d"]
    /\ requests (snd (snd res)) = [Stub.path_jan10; Stub.path_jan05]
    /\ delegated (snd (snd res)) = [([0; 1; 2; 3; 4]%nat, None)].
Proof.
  intros Hc. cbn zeta.
  pose (st := fun j => Some (stamp j)).
  assert (H0 : heap (stub_world st) 0 = mk_Article (JStr "c") (st (JStr "c")))
    by (vm_compute; reflexivity).
  assert (H1 : heap (stub_world st) 1 = mk_Article (JStr "b") (st (JStr "b")))
    by (vm_compute; reflexivity).
  assert (H2 : heap (stub_world st) 2 = mk_Article (JStr "a") (st (JStr "a")))
    by (vm_compute; reflexivity).
  assert (H3 : heap (stub_world st) 3 = mk_Article (JStr "e") (st (JStr "e")))
    by (vm_compute; reflexivity).
  assert (H4 : heap (stub_world st) 4 = mk_Article (JStr "d") (st (JStr "d")))
    by (vm_compute; reflexivity).
  unfold st in *. clear st.
  rewrite (between_miss _ (S fuel) c _ _ Stub.pub fresh_world eq_refl Hc).
  rewrite (body_valid_run _ (S fuel) Stub.jan10 Stub.jan01 Stub.pub fresh_world
             _ _ eq_refl (stub_phase _ fuel) eq_refl).
  2: { fold (stub_world (fun j => Some (stamp j))).
       repeat (apply List.Forall_cons;
               [rewrite ?H0, ?H1, ?H2, ?H3, ?H4; discriminate|]).
       apply List.Forall_nil. }
  fold (stub_world (fun j => Some (stamp j))).
  eexists. split; [reflexivity|]. cbn [fst snd].
  split; [|split].
  - unfold ids_of. cbn [set_lru heap List.filter].
    rewrite H0, H1, H2, H3, H4. unfold in_window. cbn [published_at].
    repeat match goal with
           | |- context [dt_le ?a ?b && dt_le ?c ?d] =>
               destruct (dt_le a b && dt_le c d)
           end;
      cbn [map]; rewrite ?H0, ?H1, ?H2, ?H3, ?H4; reflexivity.
  - apply stub_requests.
  - apply stub_delegated.
Qed.

(** * Runs of the stub *)

(** C1, counterexample.  After the call on [2024-01-01, 2024-01-10] and a
    call for the page at 2024-01-10, the first call made again returns the
    list it returned the first time, the handles 0 to 4, from the table;
    the cached articles of the [Publication] are the handles 5 to 7 of the
    second call, not the list returned. *)
Lemma memoized_list_is_not_cached_articles :
  let res := Publication.get_articles_between E0 5 call_scenario st2 in
  dt_lt Stub.jan01 Stub.jan10 = true
  /\ fst res = Ok [0; 1; 2; 3; 4]%nat
  /\ Publication._Publication__articles (fst (snd res)) = Some [5; 6; 7]%nat
  /\ Publication._Publication__articles (fst (snd res)) <> Some [0; 1; 2; 3; 4]%nat.
Proof.
  cbn zeta. repeat split; try (vm_compute; reflexivity).
  vm_compute. discriminate.
Qed.

(** C2, counterexample.  In the scenario, with the five articles published
    inside the bounds, the call returns the handles of c, b, a, e, d, in
    that order: not those of a, b, c, d, e. *)
Lemma scenario_order_is_reversed_per_page :
  let res := Publication.get_articles_between E0 5 call_scenario st0 in
  exists l,
    fst res = Ok l
    /\ ids_of (snd (snd res)) l = [JStr "c"; JStr "b"; JStr "a"; JStr "e"; JStr "d"]
    /\ ids_of (snd (snd res)) l <> [JStr "a"; JStr "b"; JStr "c"; JStr "d"; JStr "e"]
    /\ Forall (fun a => in_window Stub.jan01 Stub.jan10 (heap (snd (snd res)) a) = true)
              [0; 1; 2; 3; 4]%nat.
Proof.
  cbn zeta. exists [0; 1; 2; 3; 4]%nat.
  repeat split; try (vm_compute; reflexivity).
  - vm_compute. discriminate.
  - repeat (apply List.Forall_cons; [vm_compute; reflexivity|]). apply List.Forall_nil.
Qed.

(** C5, counterexample.  The call on an interval that is not one, made a
    second time: it returns the empty list from the table and prints
    nothing, the console is as the first call left it. *)
Lemma repeated_invalid_call_prints_nothing :
  let res := Publication.get_articles_between E0 0 call_swapped st_invalid in
  dt_ge Stub.jan10 Stub.jan01 = true
  /\ fst res = Ok []
  /\ stdout (snd st_invalid) = [Publication.error_line]
  /\ stdout (snd (snd res)) = stdout (snd st_invalid)
  /\ stdout (snd (snd res)) <> stdout (snd st_invalid) ++ [Publication.error_line].
Proof.
  cbn zeta. repeat split; try (vm_compute; reflexivity).
  vm_compute. discriminate.
Qed.


(** C7, counterexample.  The call with [_to] unset, made a second time: it
    makes no request, the log of requests is as the first call left it,
    with its one request. *)
Lemma repeated_page_call_makes_no_request :
  let res := Publication.get_articles_between E0 0 call_page st_page in
  fst res = Ok [0; 1; 2]%nat
  /\ requests (snd st_page) = [Stub.path_jan10]
  /\ requests (snd (snd res)) = requests (snd st_page)
  /\ requests (snd (snd res)) <> requests (snd st_page) ++ [Stub.path_jan10].
Proof.
  cbn zeta. repeat split; try (vm_compute; reflexivity).
  vm_compute. discriminate.
Qed.

(** * The theorems at the stub *)

(** a run equals its outcome, computed, and its final state *)
Ltac run_eq :=
  match goal with
  | |- ?r = (?o, snd ?r) =>
      transitivity (fst r, snd r);
      [apply surjective_pairing
      |apply (f_equal2 pair); [vm_compute; reflexivity|reflexivity]]
  end.

(** C8 at the stub: three readings of [info], on the publication and on its
    newsletter. *)
Lemma info_one_request_witness :
  (Publication._Publication__info Stub.pub = None
   /\ service E0 (requests fresh_world) (Publication.info_path Stub.pub)
        = inr Stub.info_body
   /\ Publication.read_info E0 3 (Stub.pub, fresh_world)
        = (Ok (replicate 3 Stub.info_body),
           (Publication.set_info (Some Stub.info_body) Stub.pub,
            log_request (Publication.info_path Stub.pub) fresh_world)))
  /\
  (Newsletter._Newsletter__info (Publication.newsletter Stub.pub) = None
   /\ service E0 (requests fresh_world)
        (Newsletter.path (Publication.newsletter Stub.pub))
        = inr Stub.newsletter_body
   /\ Newsletter.read_info E0 3 (Publication.newsletter Stub.pub, fresh_world)
        = (Ok (replicate 3 Stub.newsletter_body),
           (Newsletter.set_info (Some Stub.newsletter_body)
              (Publication.newsletter Stub.pub),
            log_request (Newsletter.path (Publication.newsletter Stub.pub))
              fresh_world))).
Proof.
  split; (split; [reflexivity|]); (split; [vm_compute; reflexivity|]).
  - apply (proj1 (info_one_request E0 2)); [reflexivity|vm_compute; reflexivity].
  - apply (proj2 (info_one_request E0 2)); [reflexivity|vm_compute; reflexivity].
Defined.

(** C9 at the stub: the top feeds of one tag. *)
Lemma topfeeds_cached_once_witness :
  TopFeeds._TopFeeds__ids Stub.feed = None
  /\ TopFeeds._TopFeeds__articles Stub.feed = None
  /\ service E0 (requests fresh_world) (TopFeeds.path Stub.feed)
       = inr Stub.topfeeds_body
  /\ Stub.topfeeds_body !! "topfeeds" = Some (JList [JStr "x"; JStr "y"; JStr "z"])
  /\ exists a st1,
       TopFeeds.articles E0 (Stub.feed, fresh_world) = (Ok a, st1)
       /\ TopFeeds.articles E0 st1 = (Ok a, st1)
       /\ requests (snd st1) = ["/topfeeds/blockchain/hot"].
Proof.
  split; [reflexivity|]. split; [reflexivity|].
  split; [vm_compute; reflexivity|]. split; [vm_compute; reflexivity|].
  destruct (topfeeds_cached_once E0 Stub.feed fresh_world Stub.topfeeds_body
              [JStr "x"; JStr "y"; JStr "z"])
    as (_ & a & st1 & H1 & H2 & _ & H3 & _);
    [reflexivity|reflexivity|vm_compute; reflexivity|vm_compute; reflexivity|].
  exists a, st1. split; [exact H1|]. split; [exact H2|]. exact H3.
Defined.


(** C10 at the stub: the bounds of the scenario swapped, after the call of
    the scenario. *)
Lemma invalid_interval_keeps_articles_witness :
  bind_args call_swapped = inr (Some Stub.jan01, Some Stub.jan10)
  /\ dt_ge Stub.jan10 (effective_from E0 (Some Stub.jan01) (snd st1)) = true
  /\ Publication._Publication__articles (fst st1) = Some [0; 1; 2; 3; 4]%nat
  /\ let st' := snd (Publication.get_articles_between E0 0 call_swapped
                       (fst st1, snd st1)) in
     fst st' = fst st1
     /\ Publication.articles E0 0 st' = (Ok [0; 1; 2; 3; 4]%nat, st').
Proof.
  split; [reflexivity|]. split; [reflexivity|]. split; [vm_compute; reflexivity|].
  destruct (invalid_interval_keeps_articles E0 0 0 call_swapped (Some Stub.jan01)
              Stub.jan10 (fst st1) (snd st1) eq_refl eq_refl) as [H1 H2].
  split; [exact H1|]. apply H2. vm_compute. reflexivity.
Defined.

(** C5 at the stub: the bounds of the scenario swapped, in a new process. *)
Lemma invalid_interval_empty_witness :
  bind_args call_swapped = inr (Some Stub.jan01, Some Stub.jan10)
  /\ dt_ge Stub.jan10 Stub.jan01 = true
  /\ reachable E0 fresh_world
  /\ let r := Publication.get_articles_between E0 0 call_swapped
                (Stub.pub, fresh_world) in
     fst r = Ok []
     /\ requests (snd (snd r)) = []
     /\ stdout (snd (snd r)) = [Publication.error_line].
Proof.
  split; [reflexivity|]. split; [reflexivity|]. split; [apply reach_fresh|].
  exact (invalid_interval_empty E0 0 call_swapped Stub.jan01 Stub.jan10 Stub.pub
           fresh_world eq_refl eq_refl (reach_fresh E0)).
Defined.

(** C1 at the stub: the call of the scenario, in a new process. *)
Lemma window_respected_witness :
  bind_args call_scenario = inr (Some Stub.jan10, Some Stub.jan01)
  /\ dt_lt Stub.jan01 Stub.jan10 = true
  /\ Publication.get_articles_between E0 5 call_scenario (Stub.pub, fresh_world)
     = (Ok [0; 1; 2; 3; 4]%nat, st1)
  /\ (forall a, In a [0; 1; 2; 3; 4]%nat ->
        exists p, published_at (heap (snd st1) a) = Some p
                  /\ dt_le Stub.jan01 p = true /\ dt_le p Stub.jan10 = true)
  /\ Publication._Publication__articles (fst st1) = Some [0; 1; 2; 3; 4]%nat.
Proof.
  assert (H : Publication.get_articles_between E0 5 call_scenario
                (Stub.pub, fresh_world)
              = (Ok [0; 1; 2; 3; 4]%nat, st1)).
  { unfold st1, st0. run_eq. }
  split; [reflexivity|]. split; [reflexivity|]. split; [exact H|].
  exact (window_respected E0 5 call_scenario Stub.jan10 Stub.jan01 Stub.pub
           fresh_world _ st1 eq_refl eq_refl H).
Defined.

(** C2 at the stub: the call of the scenario with the arguments given by
    keyword, and the publication times of [Stub.stamp]. *)
Lemma two_page_scenario_witness :
  bind_args call_keywords = inr (Some Stub.jan10, Some Stub.jan01)
  /\ exists l,
       fst (Publication.get_articles_between E0 5 call_keywords
              (Stub.pub, fresh_world)) = Ok l
       /\ requests (snd (snd (Publication.get_articles_between E0 5 call_keywords
                                (Stub.pub, fresh_world))))
          = [Stub.path_jan10; Stub.path_jan05]
       /\ delegated (snd (snd (Publication.get_articles_between E0 5 call_keywords
                                 (Stub.pub, fresh_world))))
          = [([0; 1; 2; 3; 4]%nat, None)].
Proof.
  split; [reflexivity|].
  destruct (two_page_scenario Stub.stamp 4 call_keywords eq_refl)
    as (l & H1 & _ & H3 & H4).
  exists l. split; [exact H1|]. split; [exact H3|exact H4].
Defined.

(** C7 at the stub: the call without arguments, in a new process. *)
Lemma one_page_when_to_unset_witness :
  bind_args call_bare = inr (None, None)
  /\ service E0 (requests fresh_world)
       (Publication.articles_path Stub.pub (effective_from E0 None fresh_world))
     = inr (Stub.body ["a"; "b"; "c"] "2024-01-05 00:00:00")
  /\ exists l,
       fst (Publication.get_articles_between E0 0 call_bare (Stub.pub, fresh_world))
         = Ok l
       /\ requests (snd (snd (Publication.get_articles_between E0 0 call_bare
                                (Stub.pub, fresh_world))))
            = [Stub.path_jan10]
       /\ ids_of (snd (snd (Publication.get_articles_between E0 0 call_bare
                              (Stub.pub, fresh_world)))) l
            = [JStr "a"; JStr "b"; JStr "c"].
Proof.
  split; [reflexivity|]. split; [vm_compute; reflexivity|].
  pose proof (one_page_when_to_unset E0 0 call_bare None Stub.pub fresh_world
                (Stub.body ["a"; "b"; "c"] "2024-01-05 00:00:00")
                [JStr "a"; JStr "b"; JStr "c"] eq_refl) as H.
  cbn zeta in H.
  change (lru_get (make_key (Publication.ident Stub.pub) call_bare)
            (lru fresh_world))
    with (@None (list nat)) in H.
  destruct H as (l & H1 & H2 & H3 & _).
  - vm_compute. reflexivity.
  - vm_compute. reflexivity.
  - intros l kw h. reflexivity.
  - intros l kw h a. simpl. destruct (existsb (Nat.eqb a) l); reflexivity.
  - exists l. split; [exact H1|]. split; [exact H2|exact H3].
Defined.

(** C3 at the stub: the two pages of the scenario. *)
Lemma paging_terminates_witness :
  bind_args call_scenario = inr (Some Stub.jan10, Some Stub.jan01)
  /\ dt_lt Stub.jan01 Stub.jan10 = true
  /\ lru_get (make_key (Publication.ident Stub.pub) call_scenario)
       (lru fresh_world) = None
  /\ served E0 Stub.pub 2 (requests fresh_world) Stub.jan10 = Some [page1; page2]
  /\ Exists (fun pg => dt_le (bound pg) Stub.jan01 = true) [page1; page2]
  /\ exists pages rest,
       [page1; page2] = pages ++ rest
       /\ stops_at Stub.jan01 pages = true
       /\ forall fuel, (length pages <= S fuel)%nat ->
            fst (Publication.get_articles_between E0 fuel call_scenario
                   (Stub.pub, fresh_world)) <> OutOfFuel
            /\ requests (snd (snd (Publication.get_articles_between E0 fuel
                                     call_scenario (Stub.pub, fresh_world))))
               = requests fresh_world
                 ++ map (fun pg => Publication.articles_path Stub.pub (cursor pg))
                        pages.
Proof.
  assert (Hs : served E0 Stub.pub 2 (requests fresh_world) Stub.jan10
               = Some [page1; page2]) by (vm_compute; reflexivity).
  assert (He : Exists (fun pg => dt_le (bound pg) Stub.jan01 = true) [page1; page2])
    by (apply List.Exists_cons_tl, List.Exists_cons_hd; reflexivity).
  split; [reflexivity|]. split; [reflexivity|]. split; [reflexivity|].
  split; [exact Hs|]. split; [exact He|].
  destruct (paging_terminates E0 call_scenario Stub.jan10 Stub.jan01 Stub.pub
              fresh_world 2 [page1; page2] eq_refl eq_refl eq_refl Hs He)
    as (pages & rest & H1 & H2 & _ & H3 & _).
  exists pages, rest. split; [exact H1|]. split; [exact H2|].
  intros fuel Hfuel. destruct (H3 fuel Hfuel) as (H4 & H5 & _).
  split; [exact H4|exact H5].
Defined.

(** C4 at the stub: the two pages of the scenario, with the publication
    times of [Stub.stamp] and windows that hold their lower end. *)
Lemma merged_NoDup_in_windows_witness :
  bind_args call_scenario = inr (Some Stub.jan10, Some Stub.jan01)
  /\ dt_lt Stub.jan01 Stub.jan10 = true
  /\ lru_get (make_key (Publication.ident Stub.pub) call_scenario)
       (lru fresh_world) = None
  /\ served E0 Stub.pub (length [page1; page2]) (requests fresh_world) Stub.jan10
     = Some [page1; page2]
  /\ stops_at Stub.jan01 [page1; page2] = true
  /\ (length [page1; page2] <= 6)%nat
  /\ Forall decreasing [page1; page2]
  /\ Forall (windowed false Stub.stamp) [page1; page2]
  /\ Forall (fun pg => List.NoDup (page_ids pg)) [page1; page2]
  /\ delegated (snd (snd (Publication.get_articles_between E0 5 call_scenario
                            (Stub.pub, fresh_world))))
     = [([0; 1; 2; 3; 4]%nat, None)]
  /\ ForallOrdPairs disjoint_pages [page1; page2]
  /\ List.NoDup (ids_of (pages_world Stub.pub [page1; page2] fresh_world)
                        [0; 1; 2; 3; 4]%nat).
Proof.
  assert (Hs : served E0 Stub.pub (length [page1; page2]) (requests fresh_world)
                 Stub.jan10 = Some [page1; page2]) by (vm_compute; reflexivity).
  assert (Hl : (length [page1; page2] <= 6)%nat) by (simpl; lia).
  assert (Hd : Forall decreasing [page1; page2])
    by (repeat (apply List.Forall_cons; [reflexivity|]); apply List.Forall_nil).
  assert (Hw : Forall (windowed false Stub.stamp) [page1; page2]).
  { repeat (apply List.Forall_cons;
            [intros i Hi; simpl in Hi;
             repeat (destruct Hi as [<-|Hi]; [split; reflexivity|]);
             destruct Hi|]);
      apply List.Forall_nil. }
  assert (Hn : Forall (fun pg => List.NoDup (page_ids pg)) [page1; page2]).
  { repeat (apply List.Forall_cons;
            [repeat constructor; simpl; intuition discriminate|]);
      apply List.Forall_nil. }
  destruct (merged_NoDup_in_windows E0 5 call_scenario Stub.jan10 Stub.jan01
              Stub.pub fresh_world [page1; page2] false Stub.stamp
              eq_refl eq_refl eq_refl Hs eq_refl Hl Hd Hw)
    as (H1 & _ & _ & H4 & H5).
  repeat (split; [first [assumption|reflexivity]|]).
  exact (H5 Hn).
Defined.
